(** * bash2go: the IR builder and the Go code generator

    A shallow embedding of the transpiler back end of TFMV/bash2go:
    - [strings]   : the functions of Go's [strings] package the code calls,
                    over byte strings;
    - [syntax]    : the node types of mvdan.cc/sh/v3/syntax the builder reads;
    - [visitor]   : the [VisitNode]/[processCommand] builder
                    (compiler/build.go, lines 102-332);
    - [parser]    : the [processCallExpr]/[processIfClause]/[flattenPipe]
                    builder (compiler/build.go, lines 333-895);
    - [generator] : [GoCodeGenerator] (generator/transpiler.go, lines 301-1124)
                    and [CodeGenerator] (generator/generator.go).

    Go strings are byte strings, and so are Rocq's: [string] is a list of
    [ascii].  The three characters that cannot be typed inside a Rocq string
    literal are named [DQ], [LF] and [TAB]. *)

From Stdlib Require Import ZArith String Ascii List Bool Lia.
From stdpp Require Import base option list strings pretty gmap fin_maps sorting.

From Equations Require Import Equations.

Set Warnings "-register-all".
Local Open Scope string_scope.
Local Open Scope list_scope.

(** ** Go's [strings] package *)

Module strings.

Definition DQ : string := String "034"%char EmptyString.
Definition LF : string := String "010"%char EmptyString.
Definition TAB : string := String "009"%char EmptyString.

(** [strings.HasPrefix(s, prefix)] *)
Definition HasPrefix (s p : string) : bool := String.prefix p s.

(** [strings.HasSuffix(s, suffix)]:
    [len(s) >= len(suffix) && s[len(s)-len(suffix):] == suffix] *)
Definition HasSuffix (s suf : string) : bool :=
  (String.length suf <=? String.length s)%nat &&
  String.eqb (substring (String.length s - String.length suf) (String.length suf) s) suf.

(** [strings.Contains(s, substr)]: some suffix of [s] starts with [substr]. *)
Fixpoint Contains (s sub : string) : bool :=
  String.prefix sub s ||
  match s with
  | EmptyString => false
  | String _ s' => Contains s' sub
  end.

(** [strings.TrimPrefix(s, prefix)] *)
Definition TrimPrefix (s p : string) : string :=
  if HasPrefix s p
  then substring (String.length p) (String.length s - String.length p) s
  else s.

(** [strings.Join(elems, sep)] *)
Fixpoint Join (elems : list string) (sep : string) : string :=
  match elems with
  | [] => EmptyString
  | [e] => e
  | e :: rest => e +:+ sep +:+ Join rest sep
  end.

(** The scan of [strings.ReplaceAll] for a non-empty [old]: occurrences are
    matched left to right and do not overlap; [skip] counts the bytes of the
    occurrence just replaced that are still to be dropped. *)
Fixpoint replaceFrom (skip : nat) (old new s : string) : string :=
  match s with
  | EmptyString => EmptyString
  | String c s' =>
      match skip with
      | S k => replaceFrom k old new s'
      | O =>
          if String.prefix old s
          then new +:+ replaceFrom (String.length old - 1) old new s'
          else String c (replaceFrom 0 old new s')
      end
  end.

(** For an empty [old] Go inserts [new] before every character and at the
    end; the generator never passes an empty [old]. *)
Fixpoint intersperse (new s : string) : string :=
  match s with
  | EmptyString => new
  | String c s' => new +:+ String c (intersperse new s')
  end.

(** [strings.ReplaceAll(s, old, new)] *)
Definition ReplaceAll (s old new : string) : string :=
  match old with
  | EmptyString => intersperse new s
  | _ => replaceFrom 0 old new s
  end.

(** The scan of [strings.Split] for a non-empty separator; [cur] is the piece
    being accumulated. *)
Fixpoint splitFrom (skip : nat) (sep cur s : string) : list string :=
  match s with
  | EmptyString => [cur]
  | String c s' =>
      match skip with
      | S k => splitFrom k sep cur s'
      | O =>
          if String.prefix sep s
          then cur :: splitFrom (String.length sep - 1) sep EmptyString s'
          else splitFrom 0 sep (cur +:+ String c EmptyString) s'
      end
  end.

(** [strings.Split(s, sep)]; with an empty separator Go explodes [s] into its
    characters. *)
Definition Split (s sep : string) : list string :=
  match sep with
  | EmptyString => (λ c, String c EmptyString) <$> list_ascii_of_string s
  | _ => splitFrom 0 sep EmptyString s
  end.

(** The slice expression [s[lo:hi]]; Go panics when the bounds are out of
    range, which is [None] here. *)
Definition slice (s : string) (lo hi : nat) : option string :=
  if ((lo <=? hi)%nat && (hi <=? String.length s)%nat)%bool
  then Some (substring lo (hi - lo) s)
  else None.

End strings.

(** ** The shell syntax tree (mvdan.cc/sh/v3/syntax)

    The parser library is a dependency (go.mod) and not part of the
    repository.  The node types below follow its declarations, restricted to
    the fields the builder reads; positions and comments are left out.  A
    pointer the parser never leaves nil is a plain value; a pointer or an
    interface the parser can leave nil is an [option], whether the builder
    tests it against nil or not. *)

Module syntax.

(** [WordPart]: [*Lit], [*SglQuoted], [*DblQuoted], [*ParamExp], [*CmdSubst],
    [*ArithmExp], [*ProcSubst], [*ExtGlob], [*BraceExp].  [ParamExp] carries
    [Param.Value]; the statements inside a [CmdSubst] are never read. *)
Inductive WordPart : Type :=
| Lit (Value : string)
| SglQuoted (Value : string)
| DblQuoted (Parts : list WordPart)
| ParamExp (Param : string)
| CmdSubst
| ArithmExp
| ProcSubst
| ExtGlob
| BraceExp.

Module Word.
Record t : Type := mk { Parts : list WordPart }.
End Word.
Abbreviation Word := Word.t.

(** [Assign]: [Name] is a [*Lit] and carries [Name.Value]; the parser leaves
    it nil for a naked argument of a declaration clause ([declare -x],
    [local -r]), whose text is in [Value]. *)
Module Assign.
Record t : Type := mk { Append : bool; Name : option string; Value : option Word }.
End Assign.
Abbreviation Assign := Assign.t.

Module CallExpr.
Record t : Type := mk { Assigns : list Assign; Args : list Word }.
End CallExpr.
Abbreviation CallExpr := CallExpr.t.

(** [BinCmdOperator]: [&&], [||], [|], [|&]. *)
Inductive BinCmdOperator : Type := AndStmt | OrStmt | Pipe | PipeAll.

(** The [Command] implementations the builders have no case for; [%T]
    prints their type name. *)
Inductive OtherCommand : Type :=
| CaseClause | ArithmCmd | TestClause | DeclClause
| LetClause | TimeClause | CoprocClause | TestDecl.

(** [Stmt.Cmd] is an interface value that may be nil; [BinaryCmd.X] and
    [BinaryCmd.Y] have the static type [*Stmt]; [IfClause.Else] is a
    [*IfClause], nil when the chain ends. *)
Inductive Stmt : Type :=
| mkStmt (Cmd : option Command)
with Command : Type :=
| CmdCallExpr (c : CallExpr)
| CmdIfClause (c : IfClause)
| CmdWhileClause (Until : bool) (Cond Do : list Stmt)
| CmdForClause (Do : list Stmt)
| CmdBlock (Stmts : list Stmt)
| CmdSubshell (Stmts : list Stmt)
| CmdBinaryCmd (c : BinaryCmd)
| CmdFuncDecl (Name : string) (Body : Stmt)
| CmdOther (k : OtherCommand)
with IfClause : Type :=
| mkIfClause (Cond Then : list Stmt) (Else : option IfClause)
with BinaryCmd : Type :=
| mkBinaryCmd (Op : BinCmdOperator) (X Y : Stmt).

Definition Stmt_Cmd (s : Stmt) : option Command :=
  match s with mkStmt c => c end.

Module File.
Record t : Type := mk { Stmts : list Stmt }.
End File.
Abbreviation File := File.t.

(** [Node]: the interface every syntax node implements.  The builders switch
    on the dynamic type; [NodeOther] stands for the node types they have no
    case for. *)
Inductive Node : Type :=
| NodeFile (n : File)
| NodeStmt (n : Stmt)
| NodeCallExpr (n : CallExpr)
| NodeBinaryCmd (n : BinaryCmd)
| NodeOther.

(** What [fmt]'s [%T] prints for a command. *)
Definition typeName (cmd : Command) : string :=
  match cmd with
  | CmdCallExpr _ => "*syntax.CallExpr"
  | CmdIfClause _ => "*syntax.IfClause"
  | CmdWhileClause _ _ _ => "*syntax.WhileClause"
  | CmdForClause _ => "*syntax.ForClause"
  | CmdBlock _ => "*syntax.Block"
  | CmdSubshell _ => "*syntax.Subshell"
  | CmdBinaryCmd _ => "*syntax.BinaryCmd"
  | CmdFuncDecl _ _ => "*syntax.FuncDecl"
  | CmdOther CaseClause => "*syntax.CaseClause"
  | CmdOther ArithmCmd => "*syntax.ArithmCmd"
  | CmdOther TestClause => "*syntax.TestClause"
  | CmdOther DeclClause => "*syntax.DeclClause"
  | CmdOther LetClause => "*syntax.LetClause"
  | CmdOther TimeClause => "*syntax.TimeClause"
  | CmdOther CoprocClause => "*syntax.CoprocClause"
  | CmdOther TestDecl => "*syntax.TestDecl"
  end.

(** [Loop]: the interface of [ForClause.Loop], implemented by [*WordIter]
    ([for x in words]) and [*CStyleLoop]; [processForClause] only tests it
    against nil. *)
Inductive Loop : Type :=
| WordIter (Name : string) (Items : list Word)
| CStyleLoop.

End syntax.

(** ** The [VisitNode] builder (compiler/build.go, lines 102-332) *)

Module visitor.
Import strings syntax.

Module Command.
Record t : Type := mk { Name : string; Args : list string }.
End Command.
Abbreviation Command := Command.t.

Module Pipe.
Record t : Type := mk { Commands : list Command }.
End Pipe.
Abbreviation Pipe := Pipe.t.

(** [StatementType] is an [int]; the constants are numbered by [iota]. *)
Definition StatementType : Type := Z.
Definition StatementCommand : StatementType := 0%Z.
Definition StatementAssignment : StatementType := 1%Z.
Definition StatementIf : StatementType := 2%Z.
Definition StatementLoop : StatementType := 3%Z.
Definition StatementPipe : StatementType := 4%Z.
Definition StatementSubshell : StatementType := 5%Z.
Definition StatementFunction : StatementType := 6%Z.

(** [Statement.Value] is an [interface{}]: nil in the zero [Statement], and
    otherwise one of the payloads [processCommand] stores. *)
Inductive Statement : Type :=
| mkStatement (Type_ : StatementType) (Value : Value)
with Value : Type :=
| VNil
| VCommand (v : Command)
| VPipe (v : Pipe)
| VSubshell (Statements : list Statement).

Module Function.
Record t : Type := mk { Name : string; Statements : list Statement }.
End Function.
Abbreviation Function := Function.t.

Module IntermediateRepresentation.
Record t : Type := mk {
  Variables : gmap string string;
  Functions : gmap string Function;
  MainStatements : list Statement
}.
End IntermediateRepresentation.
Abbreviation IntermediateRepresentation := IntermediateRepresentation.t.

(** A Go [error]: nil or a message. *)
Definition error : Type := option string.

Section Builder.

(** What [fmt.Sprintf("%v", part)] prints for a word part: the [fmt] rendering
    of a pointer to a struct of the parser library. *)
Variable fmt_v : WordPart → string.

(** The loop over [part.Parts] in the [*syntax.DblQuoted] case. *)
Definition quotedValue (parts : list WordPart) : string :=
  foldl (λ acc qpart, match qpart with Lit v => acc +:+ v | _ => acc end)
        EmptyString parts.

(** The body of the loop [for i := 1; i < len(c.Args); i++]. *)
Definition appendArg (args : list string) (word : Word) : list string :=
  match Word.Parts word with
  | [] => args
  | part :: _ =>
      match part with
      | Lit v => args ++ [v]
      | ParamExp p => args ++ ["$" +:+ p]
      | DblQuoted parts => args ++ [quotedValue parts]
      | _ => args ++ [fmt_v part]
      end
  end.

(** The [*syntax.CallExpr] case of [processCommand]. *)
Definition simpleCommand (c : CallExpr) : Command :=
  match CallExpr.Args c with
  | [] => Command.mk EmptyString []
  | word :: rest =>
      let name :=
        match Word.Parts word with
        | Lit v :: _ => v
        | _ => EmptyString
        end in
      Command.mk name (foldl appendArg [] rest)
  end.

(** The "dummy command" of the cases that are not implemented. *)
Definition dummy (msg : string) : Statement :=
  mkStatement StatementCommand (VCommand (Command.mk "echo" [msg])).

(** [processCommand]; the debug line written to standard output is not part
    of the result. *)
Definition processCommand (cmd : syntax.Command) : Statement * error :=
  match cmd with
  | CmdCallExpr c =>
      (mkStatement StatementCommand (VCommand (simpleCommand c)), None)
  | CmdBinaryCmd (mkBinaryCmd Op _ _) =>
      match Op with
      | syntax.Pipe => (mkStatement StatementPipe (VPipe (Pipe.mk [])), None)
      | _ => (dummy "Binary command not fully implemented", None)
      end
  | CmdSubshell _ => (mkStatement StatementSubshell (VSubshell []), None)
  | CmdBlock _ => (dummy "Block not fully implemented", None)
  | CmdIfClause _ => (dummy "If statement not fully implemented", None)
  | CmdWhileClause _ _ _ => (dummy "While loop not fully implemented", None)
  | CmdForClause _ => (dummy "For loop not fully implemented", None)
  | CmdFuncDecl _ _ =>
      (dummy "Function declaration not fully implemented", None)
  | CmdOther _ =>
      (mkStatement 0%Z VNil, Some ("unsupported command type: " +:+ typeName cmd))
  end.

(** [VisitNode] calls itself on the statements of a file only: the measure
    of the recursion. *)
Definition rank (node : Node) : nat :=
  match node with NodeFile _ => 1 | _ => 0 end.

(** The loop of the [*syntax.File] case, over the result of visiting one
    statement: it stops at the first error. *)
Fixpoint visitAll (visit : IntermediateRepresentation → Stmt → IntermediateRepresentation * error)
    (ir : IntermediateRepresentation) (stmts : list Stmt)
    : IntermediateRepresentation * error :=
  match stmts with
  | [] => (ir, None)
  | stmt :: rest =>
      match visit ir stmt with
      | (ir', Some err) => (ir', Some err)
      | (ir', None) => visitAll visit ir' rest
      end
  end.

(** [VisitNode(ir, node)]: [ir] is a pointer, so the function is a
    transformer of the pointed-to value that also returns the [error]. *)
Equations VisitNode (ir : IntermediateRepresentation) (node : Node)
    : IntermediateRepresentation * error by wf (rank node) lt :=
  VisitNode ir (NodeFile n) :=
    visitAll (λ ir' stmt, VisitNode ir' (NodeStmt stmt)) ir (File.Stmts n);
  VisitNode ir (NodeStmt (mkStmt (Some cmd))) :=
    match processCommand cmd with
    | (_, Some err) => (ir, Some err)
    | (stmt, None) =>
        (IntermediateRepresentation.mk
           (IntermediateRepresentation.Variables ir)
           (IntermediateRepresentation.Functions ir)
           (IntermediateRepresentation.MainStatements ir ++ [stmt]), None)
    end;
  VisitNode ir (NodeStmt (mkStmt None)) := (ir, None);
  VisitNode ir _ := (ir, None).

Definition NewIntermediateRepresentation : IntermediateRepresentation :=
  IntermediateRepresentation.mk ∅ ∅ [].

(** [BuildIR(result)] on [result.File]: the pointer returned is nil ([None])
    when visiting fails. *)
Definition BuildIR (file : File) : option IntermediateRepresentation * error :=
  match VisitNode NewIntermediateRepresentation (NodeFile file) with
  | (_, Some err) => (None, Some err)
  | (ir, None) => (Some ir, None)
  end.

End Builder.

End visitor.

(** ** The IR and its builder (compiler/build.go, lines 333-895)

    The functions that turn one syntax node into its IR value.  [BuildIR]
    and [processFunction] drive them from [syntax.Walk], a traversal of the
    parser library; [BuildIR] has a single [return ir, nil]. *)

Module parser.
Import strings syntax.

Module Command.
Record t : Type := mk {
  Name : string;
  Args : list string;
  IsBuiltin : bool;
  UseGexe : bool
}.
End Command.
Abbreviation Command := Command.t.

Module Assignment.
Record t : Type := mk {
  Name : string;
  Value : string;
  IsLocal : bool;
  IsExport : bool
}.
End Assignment.
Abbreviation Assignment := Assignment.t.

(** [ElifBlocks] is a [[][2][]Statement]: each element is the pair of a
    condition and a then-block. *)
Module If.
Record t (S : Type) : Type := mk {
  Condition : list S;
  ThenBlock : list S;
  ElseBlock : list S;
  ElifBlocks : list (list S * list S);
  ConditionType : string
}.
Arguments mk {S}.
Arguments Condition {S}.
Arguments ThenBlock {S}.
Arguments ElseBlock {S}.
Arguments ElifBlocks {S}.
Arguments ConditionType {S}.
End If.

Module Loop.
Record t (S : Type) : Type := mk {
  Type_ : string;
  Init : list S;
  Condition : list S;
  Update : list S;
  Body : list S;
  IsRange : bool;
  RangeVar : string;
  RangeFrom : string;
  RangeTo : string;
  IsForEach : bool;
  Items : string
}.
Arguments mk {S}.
Arguments Type_ {S}.
Arguments Init {S}.
Arguments Condition {S}.
Arguments Update {S}.
Arguments Body {S}.
Arguments IsRange {S}.
Arguments RangeVar {S}.
Arguments RangeFrom {S}.
Arguments RangeTo {S}.
Arguments IsForEach {S}.
Arguments Items {S}.
End Loop.

Module Pipe.
Record t : Type := mk { Commands : list Command }.
End Pipe.
Abbreviation Pipe := Pipe.t.

Module Subshell.
Record t (S : Type) : Type := mk { Statements : list S }.
Arguments mk {S}.
Arguments Statements {S}.
End Subshell.

Module Redirection.
Record t : Type := mk { Op : string; Command : Command; Filename : string }.
End Redirection.
Abbreviation Redirection := Redirection.t.

Module Background.
Record t : Type := mk { Command : Command }.
End Background.
Abbreviation Background := Background.t.

Module Return.
Record t : Type := mk { Value : string; Code : Z }.
End Return.
Abbreviation Return := Return.t.

Module Function.
Record t (S : Type) : Type := mk {
  Name : string;
  Statements : list S;
  Parameters : list string;
  LocalVars : gmap string string
}.
Arguments mk {S}.
Arguments Name {S}.
Arguments Statements {S}.
Arguments Parameters {S}.
Arguments LocalVars {S}.
End Function.

(** [StatementType] is an [int]; the constants are numbered by [iota]. *)
Definition StatementType : Type := Z.
Definition StatementCommand : StatementType := 0%Z.
Definition StatementAssignment : StatementType := 1%Z.
Definition StatementIf : StatementType := 2%Z.
Definition StatementLoop : StatementType := 3%Z.
Definition StatementPipe : StatementType := 4%Z.
Definition StatementSubshell : StatementType := 5%Z.
Definition StatementFunction : StatementType := 6%Z.
Definition StatementRedirection : StatementType := 7%Z.
Definition StatementBackground : StatementType := 8%Z.
Definition StatementReturn : StatementType := 9%Z.

(** The dynamic values of [Statement.Value], an [interface{}]: nil, or one
    of the payload structs ([VFunction] is a [*Function]).  The tag and the
    payload of a [Statement] are independent fields. *)
Inductive Payload (S : Type) : Type :=
| VNil
| VCommand (v : Command)
| VAssignment (v : Assignment)
| VIf (v : If.t S)
| VLoop (v : Loop.t S)
| VPipe (v : Pipe)
| VSubshell (v : Subshell.t S)
| VFunction (v : Function.t S)
| VRedirection (v : Redirection)
| VBackground (v : Background)
| VReturn (v : Return).
Arguments VNil {S}.
Arguments VCommand {S}.
Arguments VAssignment {S}.
Arguments VIf {S}.
Arguments VLoop {S}.
Arguments VPipe {S}.
Arguments VSubshell {S}.
Arguments VFunction {S}.
Arguments VRedirection {S}.
Arguments VBackground {S}.
Arguments VReturn {S}.

Inductive Statement : Type :=
| mkStatement (Type_ : StatementType) (Value : Payload Statement).

Abbreviation If := (If.t Statement).
Abbreviation Loop := (Loop.t Statement).
Abbreviation Subshell := (Subshell.t Statement).
Abbreviation Function := (Function.t Statement).

Module IntermediateRepresentation.
Record t : Type := mk {
  Variables : gmap string string;
  Functions : gmap string Function;
  MainStatements : list Statement;
  RequiredPackages : gmap string bool
}.
End IntermediateRepresentation.
Abbreviation IntermediateRepresentation := IntermediateRepresentation.t.

(** A [case] with several string constants. *)
Definition oneOf (s : string) (cases : list string) : bool :=
  existsb (String.eqb s) cases.

(** [extractDblQuotedValue(dq)], on [dq.Parts]. *)
Definition extractDblQuotedValue (parts : list WordPart) : string :=
  foldl (λ value part,
           match part with
           | Lit v => value +:+ v
           | ParamExp p => value +:+ ("${" +:+ p +:+ "}")
           | _ => value
           end) EmptyString parts.

(** [extractWordValue(word)] *)
Definition extractWordValue (word : Word) : string :=
  foldl (λ value part,
           match part with
           | Lit v => value +:+ v
           | ParamExp p => value +:+ ("$" +:+ p)
           | DblQuoted parts => value +:+ extractDblQuotedValue parts
           | SglQuoted v => value +:+ v
           | CmdSubst => value +:+ "$(command)"
           | _ => value
           end) EmptyString (Word.Parts word).

(** The builtin table of [processCallExpr]. *)
Definition builtins : list string :=
  ["echo"; "printf"; "cd"; "pwd"; "exit"; "return"; "test"; "["; "source";
   "export"; "read"].

(** [processCallExpr(x)]; [debug] is the constant [false]. *)
Definition processCallExpr (x : CallExpr) : Command :=
  match CallExpr.Args x with
  | [] => Command.mk EmptyString [] false true
  | word :: rest =>
      let cmdName := extractWordValue word in
      let args := extractWordValue <$> rest in
      if oneOf cmdName builtins
      then Command.mk cmdName args true false
      else Command.mk cmdName args false true
  end.

(** [processAssign(x)]: [x.Name.Value] is read without a test of [x.Name];
    on a nil [Name] the call panics, which is [None]. *)
Definition processAssign (x : Assign) : option Assignment :=
  name ← Assign.Name x;
  Some (Assignment.mk name
          (match Assign.Value x with
           | Some word => extractWordValue word
           | None => EmptyString
           end)
          false (Assign.Append x)).

(** The statement list every [process...] function builds from a [[]*Stmt]:
    the simple commands, in order; a statement of any other kind is skipped. *)
Definition appendCall (block : list Statement) (stmt : Stmt) : list Statement :=
  match Stmt_Cmd stmt with
  | Some (CmdCallExpr c) =>
      block ++ [mkStatement StatementCommand (VCommand (processCallExpr c))]
  | _ => block
  end.

(** The category written by one condition command; [None] leaves
    [ConditionType] as it is. *)
Definition conditionTypeOf (cmd : Command) : option string :=
  if String.eqb (Command.Name cmd) "test" || String.eqb (Command.Name cmd) "["
  then
    match Command.Args cmd with
    | arg0 :: _ :: _ =>
        if oneOf arg0 ["-f"; "-d"; "-e"] then Some "file"
        else if oneOf arg0 ["-z"; "-n"; "="; "!="] then Some "string"
        else if oneOf arg0 ["-eq"; "-ne"; "-lt"; "-le"; "-gt"; "-ge"]
        then Some "number"
        else None
    | _ => None
    end
  else None.

(** The body of the loop over [x.Cond] in [processIfClause], on the pair of
    [ifStmt.Condition] and [ifStmt.ConditionType]. *)
Definition appendCond (acc : list Statement * string) (cond : Stmt)
    : list Statement * string :=
  match Stmt_Cmd cond with
  | Some (CmdCallExpr c) =>
      let cmd := processCallExpr c in
      (acc.1 ++ [mkStatement StatementCommand (VCommand cmd)],
       default acc.2 (conditionTypeOf cmd))
  | _ => acc
  end.

(** [processIfClause(x)] *)
Fixpoint processIfClause (x : IfClause) : If :=
  match x with
  | mkIfClause Cond Then Else =>
      let '(condition, conditionType) := foldl appendCond ([], "command") Cond in
      let thenBlock := foldl appendCall [] Then in
      let elifBlocks :=
        match Else with
        | Some x' =>
            let elifStmt := processIfClause x' in
            [] ++ [(If.Condition elifStmt, If.ThenBlock elifStmt)]
        | None => []
        end in
      If.mk condition thenBlock [] elifBlocks conditionType
  end.

(** [processWhileClause(x)], on [x.Cond] and [x.Do]: the zero value fills the
    fields the composite literal leaves out. *)
Definition processWhileClause (Cond Do : list Stmt) : Loop :=
  Loop.mk "while" [] (foldl appendCall [] Cond) [] (foldl appendCall [] Do)
    false EmptyString EmptyString EmptyString false EmptyString.

(** [processSubshell(x)], on [x.Stmts]. *)
Definition processSubshell (Stmts : list Stmt) : Subshell :=
  Subshell.mk (foldl appendCall [] Stmts).

(** [flattenPipe] calls itself on the two operands of a binary command,
    which are statements: the measure of the recursion. *)
Definition rank (node : Node) : nat :=
  match node with NodeBinaryCmd _ => 1 | _ => 0 end.

(** [flattenPipe(node)]: both branches of the test on [n.Op] are the same
    two appends. *)
Equations flattenPipe (node : Node) : list Command by wf (rank node) lt :=
  flattenPipe (NodeBinaryCmd (mkBinaryCmd Op X Y)) :=
    match Op with
    | syntax.Pipe => ([] ++ flattenPipe (NodeStmt X)) ++ flattenPipe (NodeStmt Y)
    | _ => ([] ++ flattenPipe (NodeStmt X)) ++ flattenPipe (NodeStmt Y)
    end;
  flattenPipe (NodeStmt (mkStmt (Some (CmdCallExpr call)))) :=
    [] ++ [processCallExpr call];
  flattenPipe (NodeStmt _) := [];
  flattenPipe (NodeCallExpr n) := [] ++ [processCallExpr n];
  flattenPipe _ := [].

(** [processPipe(x)] *)
Definition processPipe (x : BinaryCmd) : Pipe :=
  Pipe.mk (flattenPipe (NodeBinaryCmd x)).

(** [processForClause(x)], on [x.Loop] and [x.Do]: the loop variable and the
    items are the placeholders [i] and [items], whatever the loop names. *)
Definition processForClause (x_Loop : option syntax.Loop) (Do : list Stmt) : Loop :=
  match x_Loop with
  | Some _ =>
      Loop.mk "for" [] [] [] (foldl appendCall [] Do)
        false "i" EmptyString EmptyString true "items"
  | None =>
      Loop.mk "for" [] [] [] (foldl appendCall [] Do)
        false EmptyString EmptyString EmptyString false EmptyString
  end.

End parser.

(** ** The code generator (generator/transpiler.go, generator/generator.go) *)

Module generator.
Import strings parser.

(** A Go [error]: nil or a message. *)
Definition error : Type := option string.

(** *** The generator monad

    The [generate...] methods have a pointer receiver and write one field of
    it, [g.RequiredImports].  A computation takes that map and gives the
    result with the updated map; [None] is a run-time panic (a failed type
    assertion or a slice out of range), which unwinds the whole call. *)
Definition Gen (A : Type) : Type :=
  gmap string bool → option (A * gmap string bool).

#[global] Instance Gen_ret : MRet Gen := λ A a g, Some (a, g).

#[global] Instance Gen_bind : MBind Gen :=
  λ A B k m g, match m g with
               | Some (a, g') => k a g'
               | None => None
               end.

Definition panic {A : Type} : Gen A := λ _, None.

(** [g.RequiredImports[pkg] = true] *)
Definition require (pkg : string) : Gen unit :=
  λ g, Some (tt, <[pkg := true]> g).

(** [return code, nil] *)
Definition ok (code : string) : Gen (string * error) := mret (code, None).

(** [fmt.Sprintf("\"%s\"", s)] *)
Definition quote (s : string) : string := DQ +:+ s +:+ DQ.

Definition gexe : string := "github.com/vladimirvivien/gexe".

(** *** [extractVariableNames] *)

Definition byteIn (lo hi c : ascii) : bool :=
  (N_of_ascii lo <=? N_of_ascii c)%N && (N_of_ascii c <=? N_of_ascii hi)%N.

Definition isValidVarNameStart (c : ascii) : bool :=
  byteIn "a" "z" c || byteIn "A" "Z" c || Ascii.eqb c "_".

Definition isValidVarNameChar (c : ascii) : bool :=
  isValidVarNameStart c || byteIn "0" "9" c.

(** The loop of [extractVariableNames] from index [i], on [s[i:]], with the
    loop state [inVar] and [varName]; the result is what is appended to
    [result] from there on.  A [$] that starts a name while one is being
    read resets [varName] without appending it. *)
Fixpoint extractFrom (s : string) (inVar : bool) (varName : string) : list string :=
  match s with
  | EmptyString => if inVar then [varName] else []
  | String c s' =>
      if Ascii.eqb c "$" &&
         match s' with
         | String d _ => isValidVarNameStart d
         | EmptyString => false
         end
      then extractFrom s' true EmptyString
      else if inVar then
        if isValidVarNameChar c
        then extractFrom s' true (varName +:+ String c EmptyString)
        else varName :: extractFrom s' false varName
      else extractFrom s' false varName
  end.

Definition extractVariableNames (s : string) : list string :=
  extractFrom s false EmptyString.

(** *** [generateCommand] *)

(** The variable reference of an argument that starts with [$], with the
    braces of [${VAR}] removed. *)
Definition bracedVarName (arg : string) : option string :=
  let varName := TrimPrefix arg "$" in
  if HasPrefix varName "{" && HasSuffix varName "}"
  then slice varName 1 (String.length varName - 1)
  else Some varName.

(** The body of the loop over [cmd.Args] in the [echo] case: the Go
    expression one argument contributes. *)
Definition echoArg (arg : string) : option string :=
  if HasPrefix arg DQ && HasSuffix arg DQ then
    if Contains arg "$" then
      processedArg ← slice arg 1 (String.length arg - 1);
      let processedArg := ReplaceAll processedArg "${" (DQ +:+ " + ") in
      let processedArg := ReplaceAll processedArg "}" (" + " +:+ DQ) in
      let processedArg :=
        foldl (λ processedArg varName,
                 ReplaceAll processedArg ("$" +:+ varName)
                   (DQ +:+ " + " +:+ varName +:+ " + " +:+ DQ))
              processedArg (extractVariableNames processedArg) in
      Some (DQ +:+ processedArg +:+ DQ)
    else Some arg
  else if HasPrefix arg "$" then bracedVarName arg
  else Some (quote arg).

(** An option computed without touching the imports; [None] is a panic. *)
Definition lift {A : Type} (o : option A) : Gen A :=
  λ g, match o with Some a => Some (a, g) | None => None end.

(** An argument that names a variable when it starts with [$], and is a
    string literal otherwise. *)
Definition varOrQuoted (arg : string) : string :=
  if HasPrefix arg "$" then TrimPrefix arg "$" else quote arg.

(** The loop over [cmd.Args] in the [rm] case, on [(isRecursive, target)]. *)
Definition rmScan (st : bool * string) (arg : string) : bool * string :=
  if String.eqb arg "-r" || String.eqb arg "-rf" || String.eqb arg "-fr"
  then (true, st.2)
  else if negb (HasPrefix arg "-") then (st.1, arg)
  else st.

(** An argument of a spawned command line, quoted when it holds a space. *)
Definition spawnArg (arg : string) : string :=
  if Contains arg " " && negb (HasPrefix arg DQ) then DQ +:+ arg +:+ DQ else arg.

(** [cmdStr] of the external-command case and of each stage of a pipe. *)
Definition commandLine (cmd : Command) : string :=
  foldl (λ cmdStr arg, cmdStr +:+ " " +:+ spawnArg arg)
        (Command.Name cmd) (Command.Args cmd).

Definition errCheck : string :=
  LF +:+ TAB +:+ "if err != nil {" +:+ LF +:+ TAB +:+ TAB +:+ "return err"
  +:+ LF +:+ TAB +:+ "}" +:+ LF +:+ TAB.

(** The [test] and [[] case of [generateCommand]. *)
Definition generateTest (cmd : Command) : Gen (string * error) :=
  require "os";;
  match Command.Args cmd with
  | op :: arg :: _ =>
      if String.eqb op "-f" then
        if HasPrefix arg "$"
        then ok ("_, err := os.Stat(" +:+ TrimPrefix arg "$" +:+ "); err == nil")
        else ok ("_, err := os.Stat(" +:+ quote arg +:+ "); err == nil")
      else if String.eqb op "-d" then
        if HasPrefix arg "$"
        then ok ("info, err := os.Stat(" +:+ TrimPrefix arg "$" +:+ ")" +:+ LF
                 +:+ TAB +:+ "if err == nil && info.IsDir()")
        else ok ("info, err := os.Stat(" +:+ quote arg +:+ ")" +:+ LF
                 +:+ TAB +:+ "if err == nil && info.IsDir()")
      else if String.eqb op "-z" then
        if HasPrefix arg "$"
        then ok ("len(" +:+ TrimPrefix arg "$" +:+ ") == 0")
        else ok ("len(" +:+ quote arg +:+ ") == 0")
      else if String.eqb op "-n" then
        if HasPrefix arg "$"
        then ok ("len(" +:+ TrimPrefix arg "$" +:+ ") > 0")
        else ok ("len(" +:+ quote arg +:+ ") > 0")
      else
        require gexe;;
        ok ("exe.Run(" +:+ DQ +:+ "test " +:+ Join (Command.Args cmd) " "
            +:+ DQ +:+ ").Success()")
  | _ => ok "// Warning: test command with insufficient arguments"
  end.

(** The [default] case of [generateCommand]. *)
Definition generateExternal (cmd : Command) : Gen (string * error) :=
  if Command.UseGexe cmd then
    require gexe;;
    let cmdStr := commandLine cmd in
    ok ("// Execute command: " +:+ cmdStr +:+ LF +:+ TAB
        +:+ "output := exe.Run(" +:+ DQ +:+ cmdStr +:+ DQ +:+ ").Stdout()"
        +:+ LF +:+ TAB +:+ "fmt.Print(output)")
  else
    require "os/exec";;
    require "fmt";;
    let args := varOrQuoted <$> Command.Args cmd in
    let argsStr :=
      match args with
      | [] => EmptyString
      | _ => ", " +:+ Join args ", "
      end in
    ok ("cmd := exec.Command(" +:+ quote (Command.Name cmd) +:+ argsStr +:+ ")"
        +:+ LF +:+ TAB +:+ "output, err := cmd.CombinedOutput()"
        +:+ LF +:+ TAB +:+ "if err != nil {"
        +:+ LF +:+ TAB +:+ TAB +:+ "return fmt.Errorf(" +:+ DQ
        +:+ "failed to execute command: %v" +:+ DQ +:+ ", err)"
        +:+ LF +:+ TAB +:+ "}"
        +:+ LF +:+ TAB +:+ "fmt.Print(string(output))").

(** [generateCommand(cmd)] *)
Definition generateCommand (cmd : Command) : Gen (string * error) :=
  let name := Command.Name cmd in
  if String.eqb name "echo" then
    require "fmt";;
    match Command.Args cmd with
    | [] => ok "fmt.Println()"
    | _ =>
        args ← lift (mapM echoArg (Command.Args cmd));
        ok ("fmt.Println(" +:+ Join args ", " +:+ ")")
    end
  else if String.eqb name "cd" then
    require "os";;
    match Command.Args cmd with
    | [] => ok ("err = os.Chdir(os.Getenv(" +:+ DQ +:+ "HOME" +:+ DQ +:+ "))")
    | arg :: _ =>
        if HasPrefix arg "$" then
          varName ← lift (bracedVarName arg);
          ok ("err = os.Chdir(" +:+ varName +:+ ")")
        else ok ("err = os.Chdir(" +:+ quote arg +:+ ")")
    end
  else if String.eqb name "pwd" then
    require "os";;
    ok ("dir, err := os.Getwd()" +:+ errCheck +:+ "fmt.Println(dir)")
  else if String.eqb name "mkdir" then
    require "os";;
    match Command.Args cmd with
    | [] => ok "// Warning: mkdir command with no arguments"
    | arg :: _ =>
        if HasPrefix arg "$"
        then ok ("err = os.MkdirAll(" +:+ TrimPrefix arg "$" +:+ ", 0755)")
        else ok ("err = os.MkdirAll(" +:+ quote arg +:+ ", 0755)")
    end
  else if String.eqb name "rm" then
    require "os";;
    match Command.Args cmd with
    | [] => ok "// Warning: rm command with no arguments"
    | _ =>
        let '(isRecursive, target) :=
          foldl rmScan (false, EmptyString) (Command.Args cmd) in
        let call :=
          if isRecursive then "err = os.RemoveAll(" else "err = os.Remove(" in
        ok (call +:+ varOrQuoted target +:+ ")")
    end
  else if String.eqb name "cp" then
    require "io/ioutil";;
    require "os";;
    match Command.Args cmd with
    | src :: dst :: _ =>
        ok ("data, err := ioutil.ReadFile(" +:+ varOrQuoted src +:+ ")"
            +:+ errCheck
            +:+ "err = ioutil.WriteFile(" +:+ varOrQuoted dst +:+ ", data, 0644)")
    | _ => ok "// Warning: cp command with insufficient arguments"
    end
  else if String.eqb name "test" || String.eqb name "[" then
    generateTest cmd
  else if String.eqb name "exit" then
    require "os";;
    match Command.Args cmd with
    | [] => ok "os.Exit(0)"
    | code :: _ =>
        if HasPrefix code "$"
        then ok ("os.Exit(" +:+ TrimPrefix code "$" +:+ ")")
        else ok ("os.Exit(" +:+ code +:+ ")")
    end
  else generateExternal cmd.

(** [generateAssignment(assign)] *)
Definition generateAssignment (assign : Assignment) : Gen (string * error) :=
  if Assignment.IsLocal assign then
    ok ("var " +:+ Assignment.Name assign +:+ " = " +:+ Assignment.Value assign)
  else if Assignment.IsExport assign then
    require "os";;
    ok ("os.Setenv(" +:+ quote (Assignment.Name assign) +:+ ", "
        +:+ Assignment.Value assign +:+ ")")
  else
    ok (Assignment.Name assign +:+ " := " +:+ Assignment.Value assign).

(** [generateCondition(conditions, conditionType)]: only the first condition
    is read, and [conditionType] is not read at all. *)
Definition binaryTest (l op r : string) : string := l +:+ " " +:+ op +:+ " " +:+ r.

(** The [switch cmd.Args[0]] of [generateCondition]; [None] when no case
    returns. *)
Definition nativeCondition (args : list string) : option (Gen (string * error)) :=
  match args with
  | op :: a :: rest =>
      let third (f : string → string) : option (Gen (string * error)) :=
        match rest with
        | b :: _ => Some (ok (f b))
        | [] => None
        end in
      if String.eqb op "-f" then
        Some (require "os";;
              ok ("_, err := os.Stat(" +:+ quote a +:+ "); err == nil"))
      else if String.eqb op "-d" then
        Some (require "os";;
              ok ("info, err := os.Stat(" +:+ quote a
                  +:+ "); err == nil && info.IsDir()"))
      else if String.eqb op "-z" then Some (ok ("len(" +:+ quote a +:+ ") == 0"))
      else if String.eqb op "-n" then Some (ok ("len(" +:+ quote a +:+ ") > 0"))
      else if String.eqb op "=" then third (λ b, binaryTest (quote a) "==" (quote b))
      else if String.eqb op "!=" then third (λ b, binaryTest (quote a) "!=" (quote b))
      else if String.eqb op "-eq" then third (λ b, binaryTest a "==" b)
      else if String.eqb op "-ne" then third (λ b, binaryTest a "!=" b)
      else if String.eqb op "-lt" then third (λ b, binaryTest a "<" b)
      else if String.eqb op "-le" then third (λ b, binaryTest a "<=" b)
      else if String.eqb op "-gt" then third (λ b, binaryTest a ">" b)
      else if String.eqb op "-ge" then third (λ b, binaryTest a ">=" b)
      else None
  | _ => None
  end.

Definition generateCondition (conditions : list Statement) (conditionType : string)
    : Gen (string * error) :=
  match conditions with
  | [] => ok "true"
  | mkStatement ty value :: _ =>
      if (ty =? StatementCommand)%Z then
        match value with
        | VCommand cmd =>
            let spawn : Gen (string * error) :=
              require gexe;;
              let cmdStr :=
                foldl (λ cmdStr arg, cmdStr +:+ " " +:+ arg)
                      (Command.Name cmd) (Command.Args cmd) in
              ok ("exe.Run(" +:+ DQ +:+ cmdStr +:+ DQ +:+ ").Success()") in
            if String.eqb (Command.Name cmd) "test"
               || String.eqb (Command.Name cmd) "["
            then default spawn (nativeCondition (Command.Args cmd))
            else spawn
        | _ => panic
        end
      else ok "true"
  end.

(** [generatePipe(pipe)] *)
Definition generatePipe (pipe : Pipe) : Gen (string * error) :=
  match Pipe.Commands pipe with
  | [] => ok "// Empty pipe"
  | first :: rest =>
      require gexe;;
      let cmdStr :=
        foldl (λ cmdStr cmd, cmdStr +:+ " | " +:+ commandLine cmd)
              (commandLine first) rest in
      ok ("// Execute piped command: " +:+ cmdStr +:+ LF +:+ TAB
          +:+ "output := exe.Run(" +:+ DQ +:+ cmdStr +:+ DQ +:+ ").Stdout()"
          +:+ LF +:+ TAB +:+ "fmt.Print(output)")
  end.

(** [generateRedirection(redirection)] *)
Definition generateRedirection (redirection : Redirection) : Gen (string * error) :=
  require "os";;
  let file := Redirection.Filename redirection in
  let opened (comment call todo : string) : string :=
    comment +:+ LF +:+ TAB +:+ "file, err := " +:+ call +:+ errCheck
    +:+ "defer file.Close()" +:+ LF +:+ TAB +:+ LF +:+ TAB +:+ todo in
  if String.eqb (Redirection.Op redirection) ">" then
    ok (opened ("// Redirect output to " +:+ file)
               ("os.Create(" +:+ quote file +:+ ")")
               "// TODO: Execute command and write output to file")
  else if String.eqb (Redirection.Op redirection) ">>" then
    ok (opened ("// Redirect output to " +:+ file +:+ " (append)")
               ("os.OpenFile(" +:+ quote file
                +:+ ", os.O_APPEND|os.O_CREATE|os.O_WRONLY, 0644)")
               "// TODO: Execute command and write output to file")
  else if String.eqb (Redirection.Op redirection) "<" then
    ok (opened ("// Redirect input from " +:+ file)
               ("os.Open(" +:+ quote file +:+ ")")
               "// TODO: Execute command with input from file")
  else ok ("// Unsupported redirection: " +:+ Redirection.Op redirection).

(** The statement-list methods are mutually recursive with
    [generateStatement]; each is written over the function that generates a
    statement list and closed by the fixpoint below. *)
Section Blocks.

Variable generateStatements : list Statement → Gen (string * error).

(** [code, err := f(); if err != nil { return "", err }] *)
Definition try (m : Gen (string * error)) (k : string → Gen (string * error))
    : Gen (string * error) :=
  r ← m;
  match r.2 with
  | Some err => mret (EmptyString, Some err)
  | None => k r.1
  end.

(** [generateIf(ifStmt)]: [ElifBlocks] is not read. *)
Definition generateIf_ (ifStmt : If) : Gen (string * error) :=
  try (generateCondition (If.Condition ifStmt) (If.ConditionType ifStmt)) (λ condition,
  try (generateStatements (If.ThenBlock ifStmt)) (λ thenBlock,
  try (match If.ElseBlock ifStmt with
       | [] => ok EmptyString
       | _ => generateStatements (If.ElseBlock ifStmt)
       end) (λ elseBlock,
  ok ("if " +:+ condition +:+ " {" +:+ LF +:+ thenBlock
      +:+ (if String.eqb elseBlock EmptyString then EmptyString
           else "} else {" +:+ LF +:+ elseBlock)
      +:+ "}")))).

Definition loopBlock (head body : string) : string :=
  head +:+ " {" +:+ LF +:+ TAB +:+ TAB +:+ body +:+ LF +:+ TAB +:+ "}".

(** [generateLoop(loop)] *)
Definition generateLoop_ (loop : Loop) : Gen (string * error) :=
  try (generateStatements (Loop.Body loop)) (λ body,
  if String.eqb (Loop.Type_ loop) "for" then
    if Loop.IsForEach loop then
      require "strings";;
      ok ("items := strings.Fields(" +:+ quote (Loop.Items loop) +:+ ")"
          +:+ LF +:+ TAB
          +:+ loopBlock ("for _, " +:+ Loop.RangeVar loop +:+ " := range items") body)
    else if Loop.IsRange loop then
      ok (loopBlock ("for " +:+ Loop.RangeVar loop +:+ " := " +:+ Loop.RangeFrom loop
                     +:+ "; " +:+ Loop.RangeVar loop +:+ " <= " +:+ Loop.RangeTo loop
                     +:+ "; " +:+ Loop.RangeVar loop +:+ "++") body)
    else ok (loopBlock "for" body)
  else if String.eqb (Loop.Type_ loop) "while" then
    try (generateCondition (Loop.Condition loop) "command") (λ condition,
    ok (loopBlock ("for " +:+ condition) body))
  else if String.eqb (Loop.Type_ loop) "until" then
    try (generateCondition (Loop.Condition loop) "command") (λ condition,
    ok (loopBlock ("for !(" +:+ condition +:+ ")") body))
  else
    ok ("// Unsupported loop type: " +:+ Loop.Type_ loop +:+ LF +:+ TAB
        +:+ loopBlock "for" body)).

(** [generateSubshell(subshell)] *)
Definition generateSubshell_ (subshell : Subshell) : Gen (string * error) :=
  try (generateStatements (Subshell.Statements subshell)) (λ stmts,
  ok ("// Execute subshell" +:+ LF +:+ TAB +:+ "func() {" +:+ LF +:+ TAB +:+ TAB
      +:+ stmts +:+ LF +:+ TAB +:+ "}()")).

End Blocks.

(** The loop of [generateStatements], over the function that generates one
    statement; [result] is the builder's content. *)
Fixpoint writeAll {S : Type} (generateStatement : S → Gen (string * error))
    (statements : list S) (result : string) : Gen (string * error) :=
  match statements with
  | [] => ok result
  | stmt :: rest =>
      r ← generateStatement stmt;
      match r.2 with
      | Some err => mret (EmptyString, Some err)
      | None => writeAll generateStatement rest (result +:+ r.1 +:+ LF)
      end
  end.

(** [generateStatement(stmt)]: the switch is on the tag, and the payload is
    then asserted to have the type the tag announces. *)
Fixpoint generateStatement (stmt : Statement) : Gen (string * error) :=
  let generateStatements (statements : list Statement) :=
    writeAll generateStatement statements EmptyString in
  match stmt with
  | mkStatement ty value =>
      if (ty =? StatementCommand)%Z then
        match value with VCommand cmd => generateCommand cmd | _ => panic end
      else if (ty =? StatementAssignment)%Z then
        match value with
        | VAssignment assignment => generateAssignment assignment
        | _ => panic
        end
      else if (ty =? StatementIf)%Z then
        match value with
        | VIf ifStmt => generateIf_ generateStatements ifStmt
        | _ => panic
        end
      else if (ty =? StatementLoop)%Z then
        match value with
        | VLoop loop => generateLoop_ generateStatements loop
        | _ => panic
        end
      else if (ty =? StatementPipe)%Z then
        match value with VPipe pipe => generatePipe pipe | _ => panic end
      else if (ty =? StatementSubshell)%Z then
        match value with
        | VSubshell subshell => generateSubshell_ generateStatements subshell
        | _ => panic
        end
      else if (ty =? StatementRedirection)%Z then
        match value with
        | VRedirection redirection => generateRedirection redirection
        | _ => panic
        end
      else if (ty =? StatementFunction)%Z then
        ok "// Function declaration (handled separately)"
      else if (ty =? StatementBackground)%Z then
        match value with
        | VBackground background =>
            try (generateCommand (Background.Command background)) (λ cmdCode,
            require "sync";;
            ok ("go func() {" +:+ LF +:+ TAB +:+ cmdCode +:+ LF +:+ "}()"))
        | _ => panic
        end
      else if (ty =? StatementReturn)%Z then
        match value with
        | VReturn returnStmt =>
            if negb (String.eqb (Return.Value returnStmt) EmptyString)
            then ok ("return " +:+ Return.Value returnStmt)
            else ok ("return " +:+ pretty (Return.Code returnStmt))
        | _ => panic
        end
      else ok ("// Unsupported statement type: " +:+ pretty ty)
  end.

(** [generateStatements(statements)] *)
Definition generateStatements (statements : list Statement) : Gen (string * error) :=
  writeAll generateStatement statements EmptyString.

Definition generateIf : If → Gen (string * error) := generateIf_ generateStatements.
Definition generateLoop : Loop → Gen (string * error) := generateLoop_ generateStatements.
Definition generateSubshell : Subshell → Gen (string * error) :=
  generateSubshell_ generateStatements.

(** *** [CodeBuilder] and [CodeGenerator] (generator/generator.go) *)

Module CodeBuilder.
Record t : Type := mk { buf : string; indentLevel : Z; indentStr : string }.
End CodeBuilder.
Abbreviation CodeBuilder := CodeBuilder.t.

Definition NewCodeBuilder : CodeBuilder := CodeBuilder.mk EmptyString 0 TAB.

(** The loop [for i := 0; i < cb.indentLevel; i++]. *)
Fixpoint indentation (n : nat) (indentStr : string) : string :=
  match n with
  | O => EmptyString
  | S k => indentStr +:+ indentation k indentStr
  end.

Definition WriteLine (cb : CodeBuilder) (line : string) : CodeBuilder :=
  CodeBuilder.mk
    (CodeBuilder.buf cb
     +:+ indentation (Z.to_nat (CodeBuilder.indentLevel cb)) (CodeBuilder.indentStr cb)
     +:+ line +:+ LF)
    (CodeBuilder.indentLevel cb) (CodeBuilder.indentStr cb).

Definition Indent (cb : CodeBuilder) : CodeBuilder :=
  CodeBuilder.mk (CodeBuilder.buf cb) (CodeBuilder.indentLevel cb + 1)
    (CodeBuilder.indentStr cb).

Definition Outdent (cb : CodeBuilder) : CodeBuilder :=
  if (0 <? CodeBuilder.indentLevel cb)%Z
  then CodeBuilder.mk (CodeBuilder.buf cb) (CodeBuilder.indentLevel cb - 1)
         (CodeBuilder.indentStr cb)
  else cb.

(** The struct [Parameter]. *)
Module Param.
Record t : Type := mk { Name : string; Type_ : string }.
End Param.

Module Function.
Record t : Type := mk {
  Name : string;
  Parameters : list Param.t;
  ReturnType : string;
  Body : list string;
  Comments : list string
}.
End Function.
Abbreviation Function := Function.t.

Module CodeGenerator.
Record t : Type := mk {
  packageName : string;
  imports : gmap string bool;
  globals : list string;
  functions : list Function;
  cb : CodeBuilder
}.
End CodeGenerator.
Abbreviation CodeGenerator := CodeGenerator.t.

Definition NewCodeGenerator (packageName : string) : CodeGenerator :=
  CodeGenerator.mk packageName ∅ [] [] NewCodeBuilder.

Definition AddImport (cg : CodeGenerator) (pkg : string) : CodeGenerator :=
  CodeGenerator.mk (CodeGenerator.packageName cg)
    (<[pkg := true]> (CodeGenerator.imports cg))
    (CodeGenerator.globals cg) (CodeGenerator.functions cg) (CodeGenerator.cb cg).

Definition AddGlobal (cg : CodeGenerator) (global : string) : CodeGenerator :=
  CodeGenerator.mk (CodeGenerator.packageName cg) (CodeGenerator.imports cg)
    (CodeGenerator.globals cg ++ [global]) (CodeGenerator.functions cg)
    (CodeGenerator.cb cg).

Definition AddFunction (cg : CodeGenerator) (fn : Function) : CodeGenerator :=
  CodeGenerator.mk (CodeGenerator.packageName cg) (CodeGenerator.imports cg)
    (CodeGenerator.globals cg) (CodeGenerator.functions cg ++ [fn])
    (CodeGenerator.cb cg).

(** [sort.Strings(x)]: the order is byte-wise lexicographic, [String.le]. *)
Definition sort_Strings (x : list string) : list string := merge_sort String.le x.

(** A [range] over a Go map visits every entry once, in an order the
    language leaves unspecified and the runtime varies from one loop to the
    next: [order] is one such visit of [m].  The two loops over an import
    map below are written over [map_to_list]: what they compute does not
    depend on the visit ([AddImport_traversal], [sort_Strings_traversal]). *)
Definition traversal {A : Type} (m : gmap string A) (order : list (string * A)) : Prop :=
  order ≡ₚ map_to_list m.

(** The part of [Build] that writes one function. *)
Definition writeFunction (cb : CodeBuilder) (fn : Function) : CodeBuilder :=
  let cb := foldl (λ cb comment, WriteLine cb ("// " +:+ comment)) cb (Function.Comments fn) in
  let params :=
    (λ p, Param.Name p +:+ " " +:+ Param.Type_ p) <$> Function.Parameters fn in
  let paramList := Join params ", " in
  let signature := "func " +:+ Function.Name fn +:+ "(" +:+ paramList +:+ ")" in
  let signature :=
    if negb (String.eqb (Function.ReturnType fn) EmptyString)
    then signature +:+ " " +:+ Function.ReturnType fn
    else signature in
  let cb := WriteLine cb (signature +:+ " {") in
  let cb := Indent cb in
  let cb := foldl WriteLine cb (Function.Body fn) in
  let cb := Outdent cb in
  let cb := WriteLine cb "}" in
  WriteLine cb EmptyString.

(** [Build] up to the call of [cb.Format]: the content of the builder. *)
Definition BuildSource (cg : CodeGenerator) : CodeBuilder :=
  let cb := CodeGenerator.cb cg in
  let cb := WriteLine cb ("package " +:+ CodeGenerator.packageName cg) in
  let cb := WriteLine cb EmptyString in
  let cb :=
    if (0 <? size (CodeGenerator.imports cg))%nat then
      let cb := WriteLine cb "import (" in
      let cb := Indent cb in
      let importKeys := sort_Strings (map_to_list (CodeGenerator.imports cg)).*1 in
      let cb := foldl (λ cb imp, WriteLine cb (quote imp)) cb importKeys in
      let cb := Outdent cb in
      let cb := WriteLine cb ")" in
      WriteLine cb EmptyString
    else cb in
  let cb := foldl WriteLine cb (CodeGenerator.globals cg) in
  let cb :=
    match CodeGenerator.globals cg with
    | [] => cb
    | _ => WriteLine cb EmptyString
    end in
  foldl writeFunction cb (CodeGenerator.functions cg).

Section Generate.

(** [format.Source] of the Go standard library (gofmt): the formatted source
    or the message of the error. *)
Variable format_Source : string → string + string.

(** [cb.Format()] *)
Definition Format (cb : CodeBuilder) : string * error :=
  match format_Source (CodeBuilder.buf cb) with
  | inr err =>
      (CodeBuilder.buf cb, Some ("failed to format generated code: " +:+ err))
  | inl src => (src, None)
  end.

(** [cg.Build()] *)
Definition Build (cg : CodeGenerator) : string * error :=
  Format (BuildSource cg).

(** The first loop of [Generate], over [g.IR.MainStatements]. *)
Definition scanStatement (stmt : Statement) : Gen unit :=
  match stmt with
  | mkStatement ty value =>
      if (ty =? StatementCommand)%Z then
        match value with
        | VCommand cmd =>
            (if Command.UseGexe cmd then require gexe
             else if negb (Command.IsBuiltin cmd) then require "os/exec"
             else mret tt);;
            (if String.eqb (Command.Name cmd) "echo" then require "fmt"
             else mret tt)
        | _ => panic
        end
      else if (ty =? StatementPipe)%Z then require gexe
      else mret tt
  end.

Fixpoint scanStatements (stmts : list Statement) : Gen unit :=
  match stmts with
  | [] => mret tt
  | stmt :: rest => scanStatement stmt;; scanStatements rest
  end.

(** The value of [g.RequiredImports]. *)
Definition requiredImports : Gen (gmap string bool) := λ g, Some (g, g).

(** The loop of [Generate] over [g.IR.Functions], in the order of the visit;
    it leaves [Generate] at the first error. *)
Fixpoint addFunctions (cg : CodeGenerator) (order : list (string * parser.Function))
    : Gen (CodeGenerator * error) :=
  match order with
  | [] => mret (cg, None)
  | (name, function) :: rest =>
      r ← generateStatements (parser.Function.Statements function);
      match r.2 with
      | Some err => mret (cg, Some err)
      | None =>
          let bodyLines := Split r.1 LF in
          let fn :=
            Function.mk name [] EmptyString bodyLines
              ["Function " +:+ name +:+ " from the original Bash script"] in
          addFunctions (AddFunction cg fn) rest
      end
  end.

(** The [CodeGenerator] that [Generate] hands to [Build].  [varOrder] and
    [funcOrder] are the visits of [g.IR.Variables] and [g.IR.Functions] by
    their [range] loops. *)
Definition prepare (varOrder : list (string * string))
    (funcOrder : list (string * parser.Function))
    (ir : IntermediateRepresentation) : Gen (CodeGenerator * error) :=
  let cg := NewCodeGenerator "main" in
  scanStatements (IntermediateRepresentation.MainStatements ir);;
  imports ← requiredImports;
  let cg := foldl (λ cg imp, AddImport cg imp.1) cg (map_to_list imports) in
  let cg :=
    foldl (λ cg v, AddGlobal cg ("var " +:+ v.1 +:+ " = " +:+ v.2)) cg varOrder in
  r ← addFunctions cg funcOrder;
  match r.2 with
  | Some err => mret r
  | None =>
      m ← generateStatements (IntermediateRepresentation.MainStatements ir);
      match m.2 with
      | Some err => mret (r.1, Some err)
      | None =>
          let mainLines := Split m.1 LF in
          let mainFn :=
            Function.mk "main" [] EmptyString mainLines
              ["Main function generated from Bash script"] in
          mret (AddFunction r.1 mainFn, None)
      end
  end.

(** [Generate()]: [g.RequiredImports] starts empty; the result is [None]
    when the call panics. *)
Definition Generate (varOrder : list (string * string))
    (funcOrder : list (string * parser.Function))
    (ir : IntermediateRepresentation) : option (string * error) :=
  match prepare varOrder funcOrder ir ∅ with
  | None => None
  | Some ((_, Some err), _) => Some (EmptyString, Some err)
  | Some ((cg, None), _) => Some (Build cg)
  end.

End Generate.

End generator.

(** ** The first code generator (generator/transpiler.go, lines 1-300)

    [generateCommand] of the generator that goes with the [VisitNode]
    builder; its commands are [visitor.Command].  The debug line it writes
    to standard output is not part of the result. *)

Module generator_v1.
Import strings visitor.

Definition BSL : string := String "092"%char EmptyString.

(** [contains(slice, s)] *)
Fixpoint contains (slice : list string) (s : string) : bool :=
  match slice with
  | [] => false
  | item :: rest => if String.eqb item s then true else contains rest s
  end.

Section Templates.

(** [ExecuteTemplate(commandTemplate, cmd)]: the text of the template is in
    generator/template.go; what the engine of the library text/template
    makes of it on a command is left open. *)
Variable commandTemplate : Command → string * generator.error.

(** The loop over [cmd.Args] in the [echo] case. *)
Definition echoArg (arg : string) : string :=
  if HasPrefix arg DQ && HasSuffix arg DQ then arg else generator.quote arg.

(** [generateCommand(cmd)] *)
Definition generateCommand (cmd : Command) : generator.Gen (string * generator.error) :=
  let name := Command.Name cmd in
  let args := Command.Args cmd in
  if String.eqb name "echo" then
    generator.require "fmt";;
    match args with
    | [] => generator.ok "fmt.Println()"
    | _ => generator.ok ("fmt.Println(" +:+ Join (echoArg <$> args) ", " +:+ ")")
    end
  else if String.eqb name "cd" then
    generator.require "os";;
    match args with
    | [] =>
        generator.ok ("err = os.Chdir(os.Getenv(" +:+ DQ +:+ "HOME" +:+ DQ +:+ "))")
    | arg :: _ => generator.ok ("err = os.Chdir(" +:+ arg +:+ ")")
    end
  else if String.eqb name "rm" then
    generator.require "os";;
    match last args with
    | None => generator.ok "// Warning: rm command with no arguments"
    | Some target =>
        if contains args "-r" || contains args "-rf"
        then generator.ok ("err = os.RemoveAll(" +:+ target +:+ ")")
        else generator.ok ("err = os.Remove(" +:+ target +:+ ")")
    end
  else if String.eqb name "mkdir" then
    generator.require "os";;
    match last args with
    | None => generator.ok "// Warning: mkdir command with no arguments"
    | Some target => generator.ok ("err = os.MkdirAll(" +:+ target +:+ ", 0755)")
    end
  else if String.eqb name "cp" then
    generator.require "io/ioutil";;
    match args with
    | src :: dst :: _ =>
        generator.ok ("data, err := ioutil.ReadFile(" +:+ src +:+ ")"
                      +:+ generator.errCheck
                      +:+ "err = ioutil.WriteFile(" +:+ dst +:+ ", data, 0644)")
    | _ => generator.ok "// Warning: cp command with insufficient arguments"
    end
  else if String.eqb name "curl" then
    generator.require "net/http";;
    generator.require "io/ioutil";;
    generator.require "fmt";;
    generator.ok ("resp, err := http.Get(" +:+ DQ +:+ "url" +:+ DQ +:+ ")"
                  +:+ generator.errCheck
                  +:+ "defer resp.Body.Close()" +:+ LF +:+ TAB
                  +:+ "body, err := ioutil.ReadAll(resp.Body)"
                  +:+ generator.errCheck
                  +:+ "fmt.Println(string(body))")
  else if Contains name "not fully implemented" then
    generator.require "fmt";;
    generator.ok ("fmt.Println(" +:+ DQ +:+ ReplaceAll name DQ (BSL +:+ DQ) +:+ DQ +:+ ")")
  else
    match name, args with
    | EmptyString, [] => generator.ok "// Empty command"
    | _, _ => mret (commandTemplate cmd)
    end.

End Templates.

End generator_v1.

(** * Vocabulary of the statements

    Shorthands for the syntax trees and statements of the examples, and the
    tables of the specification the builder is compared with. *)

Section Vocabulary.
Import strings syntax parser generator.

(** A word made of one literal. *)
Definition lit (s : string) : Word := Word.mk [Lit s].

(** The simple command whose words are the given literals. *)
Definition simple (words : list string) : CallExpr := CallExpr.mk [] (lit <$> words).

(** The statement that holds a simple command. *)
Definition call (words : list string) : Stmt :=
  mkStmt (Some (CmdCallExpr (simple words))).

Definition command (cmd : Command) : Statement :=
  mkStatement StatementCommand (VCommand cmd).

(** The category the specification gives to the first argument of a test. *)
Definition category (arg0 : string) : string :=
  if bool_decide (arg0 ∈ ["-f"; "-d"; "-e"]) then "file"
  else if bool_decide (arg0 ∈ ["-z"; "-n"; "="; "!="]) then "string"
  else if bool_decide (arg0 ∈ ["-eq"; "-ne"; "-lt"; "-le"; "-gt"; "-ge"]) then "number"
  else "command".

(** [X | Y] as a statement. *)
Definition piped (X Y : Stmt) : Stmt :=
  mkStmt (Some (CmdBinaryCmd (mkBinaryCmd syntax.Pipe X Y))).

(** The commands of C10, each with the warning the generator writes for it
    and the packages it records on the way. *)
Inductive missing_operands : Command → string → list string → Prop :=
| missing_rm (cmd : Command) :
    Command.Name cmd = "rm" → Command.Args cmd = [] →
    missing_operands cmd "// Warning: rm command with no arguments" ["os"]
| missing_mkdir (cmd : Command) :
    Command.Name cmd = "mkdir" → Command.Args cmd = [] →
    missing_operands cmd "// Warning: mkdir command with no arguments" ["os"]
| missing_cp (cmd : Command) :
    Command.Name cmd = "cp" → (List.length (Command.Args cmd) < 2)%nat →
    missing_operands cmd "// Warning: cp command with insufficient arguments"
      ["io/ioutil"; "os"].

(** The code and the error a generator computation returns from an empty
    import map; [None] when it panics. *)
Definition result {A : Type} (m : Gen A) : option A := fst <$> m ∅.

(** What the loop of [generateStatements] has already written is a prefix
    of what it returns. *)
Definition prefixed (written : string)
    (r : option ((string * error) * gmap string bool))
    : option ((string * error) * gmap string bool) :=
  match r with
  | Some ((code, None), g) => Some ((written +:+ code, None), g)
  | _ => r
  end.

(** The statements [visitor.processCommand] has a case for. *)
Definition supported (stmt : Stmt) : Prop :=
  match Stmt_Cmd stmt with
  | Some (CmdOther _) => False
  | _ => True
  end.

(** The rendering of word parts plays no part in the examples. *)
Definition no_fmt : WordPart → string := λ _, EmptyString.

(** A name of the identifier grammar: a start character followed by name
    characters. *)
Definition identifier (name : string) : bool :=
  match name with
  | EmptyString => false
  | String c rest =>
      isValidVarNameStart c && forallb isValidVarNameChar (list_ascii_of_string rest)
  end.

(** No dollar sign of [s] is followed by a character that can start a
    name. *)
Fixpoint noReference (s : string) : bool :=
  match s with
  | EmptyString => true
  | String c s' =>
      negb (Ascii.eqb c "$" &&
            match s' with
            | String d _ => isValidVarNameStart d
            | EmptyString => false
            end)
      && noReference s'
  end.

(** The arguments of rm that ask for a recursive removal, and those that do
    not start with a dash. *)
Definition recursiveFlag (arg : string) : bool :=
  String.eqb arg "-r" || String.eqb arg "-rf" || String.eqb arg "-fr".

Definition operand (arg : string) : bool := negb (HasPrefix arg "-").

(** The IR statement of a syntax statement that holds a simple command. *)
Definition simpleStatement (stmt : Stmt) : option Statement :=
  match Stmt_Cmd stmt with
  | Some (CmdCallExpr c) => Some (command (processCallExpr c))
  | _ => None
  end.

(** The builder [cb] with [written] in front of its buffer, and the
    generator [cg] over another builder. *)
Definition prepend (written : string) (cb : CodeBuilder) : CodeBuilder :=
  CodeBuilder.mk (written +:+ CodeBuilder.buf cb) (CodeBuilder.indentLevel cb)
    (CodeBuilder.indentStr cb).

Definition withBuilder (cg : CodeGenerator) (cb : CodeBuilder) : CodeGenerator :=
  CodeGenerator.mk (CodeGenerator.packageName cg) (CodeGenerator.imports cg)
    (CodeGenerator.globals cg) (CodeGenerator.functions cg) cb.

(** A builder at indentation level [n] with the indentation string [s]. *)
Definition indented (n : Z) (s : string) (cb : CodeBuilder) : Prop :=
  CodeBuilder.indentLevel cb = n ∧ CodeBuilder.indentStr cb = s.

(** The packages the [generate...] methods may record. *)
Definition packages : list string :=
  ["fmt"; "os"; "io/ioutil"; "github.com/vladimirvivien/gexe"; "os/exec";
   "strings"; "sync"].

(** [g'] is [g] with some of the [packages] set to true. *)
Definition extends (g g' : gmap string bool) : Prop :=
  ∀ k : string, g' !! k = g !! k ∨ (k ∈ packages ∧ g' !! k = Some true).

(** A computation that, when it returns, returns a nil error and has only
    recorded packages. *)
Definition sound (m : Gen (string * error)) : Prop :=
  ∀ (g g' : gmap string bool) (code : string) (err : error),
    m g = Some ((code, err), g') → err = None ∧ extends g g'.

(** A computation that does not panic. *)
Definition never_panics {A : Type} (m : Gen A) : Prop :=
  ∀ g : gmap string bool, is_Some (m g).

(** The payload of a statement has the type its tag announces, and so have
    the statements of the lists the generator reads: the condition, the then
    and the else branch of an if, the condition and the body of a loop, the
    body of a subshell.  The tag of a function declaration and an unknown
    tag ask nothing of the payload. *)
Fixpoint wellTagged (stmt : Statement) : bool :=
  match stmt with
  | mkStatement ty value =>
      if (ty =? StatementCommand)%Z then
        match value with VCommand _ => true | _ => false end
      else if (ty =? StatementAssignment)%Z then
        match value with VAssignment _ => true | _ => false end
      else if (ty =? StatementIf)%Z then
        match value with
        | VIf ifStmt =>
            forallb wellTagged (If.Condition ifStmt)
            && forallb wellTagged (If.ThenBlock ifStmt)
            && forallb wellTagged (If.ElseBlock ifStmt)
        | _ => false
        end
      else if (ty =? StatementLoop)%Z then
        match value with
        | VLoop loop =>
            forallb wellTagged (Loop.Condition loop)
            && forallb wellTagged (Loop.Body loop)
        | _ => false
        end
      else if (ty =? StatementPipe)%Z then
        match value with VPipe _ => true | _ => false end
      else if (ty =? StatementSubshell)%Z then
        match value with
        | VSubshell subshell => forallb wellTagged (Subshell.Statements subshell)
        | _ => false
        end
      else if (ty =? StatementRedirection)%Z then
        match value with VRedirection _ => true | _ => false end
      else if (ty =? StatementBackground)%Z then
        match value with VBackground _ => true | _ => false end
      else if (ty =? StatementReturn)%Z then
        match value with VReturn _ => true | _ => false end
      else true
  end.

(** The statements below a payload that the generator reads. *)
Definition nested (P : Statement → Prop) (value : Payload Statement) : Prop :=
  match value with
  | VIf ifStmt =>
      Forall P (If.Condition ifStmt) ∧ Forall P (If.ThenBlock ifStmt)
      ∧ Forall P (If.ElseBlock ifStmt)
  | VLoop loop => Forall P (Loop.Condition loop) ∧ Forall P (Loop.Body loop)
  | VSubshell subshell => Forall P (Subshell.Statements subshell)
  | _ => True
  end.

End Vocabulary.

(** * Properties *)

Import strings.

(** ** Builtin classification ([parser.processCallExpr]) *)

Section Classification.
Import syntax parser.

Lemma oneOf_elem_of (s : string) (cases : list string) :
  oneOf s cases = true ↔ s ∈ cases.
Proof.
  unfold oneOf. rewrite existsb_exists. split.
  - intros (y & Hy & Heq). apply String.eqb_eq in Heq. subst.
    by apply list_elem_of_In.
  - intros Hin. exists s. split; [by apply list_elem_of_In|apply String.eqb_refl].
Qed.

Lemma processCallExpr_Name (x : CallExpr) :
  Command.Name (processCallExpr x) =
  match CallExpr.Args x with
  | [] => EmptyString
  | word :: _ => extractWordValue word
  end.
Proof.
  unfold processCallExpr. destruct (CallExpr.Args x) as [|w ws]; [done|].
  by destruct (oneOf _ _).
Qed.

Lemma processCallExpr_Args (x : CallExpr) :
  Command.Args (processCallExpr x) = extractWordValue <$> tail (CallExpr.Args x).
Proof.
  unfold processCallExpr. destruct (CallExpr.Args x) as [|w ws]; [done|].
  by destruct (oneOf _ _).
Qed.

(** C5, as the code has it: the name of a command is the value of its
    first word (the empty name when it has no words) and its arguments are
    the values of the words that follow; the command is flagged as a builtin
    exactly when that name is one of echo, printf, cd, pwd, exit, return,
    test, [, source, export, read; every other command (mkdir, rm and cp
    among them, and the command without words) is flagged for the
    process-execution helper. *)
Theorem processCallExpr_builtin_table (x : CallExpr) :
  Command.Name (processCallExpr x) =
    match CallExpr.Args x with
    | [] => EmptyString
    | word :: _ => extractWordValue word
    end ∧
  Command.Args (processCallExpr x) = extractWordValue <$> tail (CallExpr.Args x) ∧
  (Command.IsBuiltin (processCallExpr x) = true ↔
   match CallExpr.Args x with
   | [] => EmptyString
   | word :: _ => extractWordValue word
   end ∈
     ["echo"; "printf"; "cd"; "pwd"; "exit"; "return"; "test"; "["; "source";
      "export"; "read"]) ∧
  (Command.IsBuiltin (processCallExpr x) = true ↔
   Command.Name (processCallExpr x) ∈
     ["echo"; "printf"; "cd"; "pwd"; "exit"; "return"; "test"; "["; "source";
      "export"; "read"]) ∧
  Command.UseGexe (processCallExpr x) = negb (Command.IsBuiltin (processCallExpr x)) ∧
  (∀ assigns : list Assign,
     processCallExpr (CallExpr.mk assigns []) = Command.mk EmptyString [] false true).
Proof.
  split; [apply processCallExpr_Name|]. split; [apply processCallExpr_Args|].
  rewrite <- processCallExpr_Name.
  enough ((Command.IsBuiltin (processCallExpr x) = true ↔
           Command.Name (processCallExpr x) ∈
             ["echo"; "printf"; "cd"; "pwd"; "exit"; "return"; "test"; "["; "source";
              "export"; "read"]) ∧
          Command.UseGexe (processCallExpr x) =
            negb (Command.IsBuiltin (processCallExpr x))) as [Hb' Hg']
    by (split; [exact Hb'|split; [exact Hb'|split; [exact Hg'|reflexivity]]]).
  unfold processCallExpr. destruct (CallExpr.Args x) as [|w ws].
  - cbn [Command.IsBuiltin Command.Name Command.UseGexe negb].
    split; [|reflexivity]. split; [intros H; discriminate H|].
    intros Hin. apply oneOf_elem_of in Hin. discriminate Hin.
  - destruct (oneOf (extractWordValue w) builtins) eqn:Hb;
      cbn [Command.IsBuiltin Command.Name Command.UseGexe negb].
    + split; [|reflexivity]. split; [|reflexivity].
      intros _. by apply oneOf_elem_of.
    + split; [|reflexivity]. split; [intros H; discriminate H|].
      intros Hin. apply oneOf_elem_of in Hin. unfold builtins in Hb. congruence.
Qed.

(** C5 as stated fails: mkdir, rm and cp are on the claimed list and are
    classified as external commands; printf and return are not on it and are
    classified as builtins. *)
Lemma processCallExpr_mkdir_not_builtin :
  processCallExpr (simple ["mkdir"; "build"]) =
    Command.mk "mkdir" ["build"] false true ∧
  processCallExpr (simple ["rm"; "build"]) = Command.mk "rm" ["build"] false true ∧
  processCallExpr (simple ["cp"; "a"; "b"]) = Command.mk "cp" ["a"; "b"] false true ∧
  processCallExpr (simple ["printf"; "x"]) = Command.mk "printf" ["x"] true false ∧
  processCallExpr (simple ["return"]) = Command.mk "return" [] true false.
Proof. repeat split. Qed.

End Classification.

(** ** Conditionals ([parser.processIfClause]) *)

Section Conditionals.
Import syntax parser.

Lemma processIfClause_unfold (Cond Then : list Stmt) (Else : option IfClause) :
  processIfClause (mkIfClause Cond Then Else) =
  If.mk (foldl appendCond ([], "command") Cond).1
        (foldl appendCall [] Then)
        []
        (match Else with
         | Some x' =>
             [(If.Condition (processIfClause x'), If.ThenBlock (processIfClause x'))]
         | None => []
         end)
        (foldl appendCond ([], "command") Cond).2.
Proof.
  cbn [processIfClause].
  destruct (foldl appendCond ([], "command") Cond) as [condition conditionType].
  by destruct Else.
Qed.

Lemma oneOf_bool_decide (s : string) (cases : list string) :
  oneOf s cases = bool_decide (s ∈ cases).
Proof.
  destruct (oneOf s cases) eqn:H; symmetry.
  - apply bool_decide_eq_true. by apply oneOf_elem_of.
  - apply bool_decide_eq_false. intros Hin. apply oneOf_elem_of in Hin. congruence.
Qed.

Lemma conditionTypeOf_test (cmd : Command) :
  Command.Name cmd = "test" ∨ Command.Name cmd = "[" →
  default "command" (conditionTypeOf cmd) =
  match Command.Args cmd with
  | arg0 :: _ :: _ => category arg0
  | _ => "command"
  end.
Proof.
  intros Hname. unfold conditionTypeOf.
  replace (String.eqb (Command.Name cmd) "test" || String.eqb (Command.Name cmd) "[")
    with true by (destruct Hname as [-> | ->]; reflexivity).
  destruct (Command.Args cmd) as [|arg0 [|arg1 rest]]; [done..|].
  unfold category. rewrite !oneOf_bool_decide.
  by repeat case_bool_decide.
Qed.

(** What the code does: when the condition of an if clause is a single test
    or [ command, the category is read off the first argument (-f, -d, -e:
    file; -z, -n, =, !=: string; -eq, -ne, -lt, -le, -gt, -ge: number;
    anything else: command) provided the command has at least two
    arguments; with fewer than two arguments the category is command. *)
Lemma processIfClause_ConditionType (c : CallExpr) (Then : list Stmt)
    (Else : option IfClause) :
  Command.Name (processCallExpr c) = "test" ∨ Command.Name (processCallExpr c) = "[" →
  If.ConditionType (processIfClause (mkIfClause [mkStmt (Some (CmdCallExpr c))] Then Else)) =
  match Command.Args (processCallExpr c) with
  | arg0 :: _ :: _ => category arg0
  | _ => "command"
  end.
Proof.
  intros Hname. rewrite processIfClause_unfold. cbn.
  by apply conditionTypeOf_test.
Qed.

Lemma processIfClause_ConditionType_witness :
  If.ConditionType
    (processIfClause
       (mkIfClause [call ["["; "-f"; "go.mod"; "]"]] [call ["echo"; "exists"]]
          (Some (mkIfClause [] [call ["echo"; "missing"]] None)))) = "file".
Proof.
  exact (processIfClause_ConditionType (simple ["["; "-f"; "go.mod"; "]"])
           [call ["echo"; "exists"]]
           (Some (mkIfClause [] [call ["echo"; "missing"]] None))
           (or_intror eq_refl)).
Defined.

(** The first argument of a binary test is an operand: the category is
    command, whatever the operator that follows it. *)
Lemma processIfClause_ConditionType_binary :
  If.ConditionType
    (processIfClause
       (mkIfClause
          [mkStmt (Some (CmdCallExpr
             (CallExpr.mk []
                [lit "["; Word.mk [DblQuoted [ParamExp "NAME"]]; lit "=";
                 Word.mk [DblQuoted [Lit "World"]]; lit "]"])))]
          [call ["echo"; "Name is World"]] None))
    = "command".
Proof. reflexivity. Qed.

(** [test -f] has the first argument -f and the category command; and when
    a second test follows [[ -f a ]], its first argument does not decide the
    category. *)
Lemma processIfClause_ConditionType_one_argument :
  If.ConditionType
    (processIfClause (mkIfClause [call ["test"; "-f"]] [call ["echo"; "yes"]] None))
    = "command" ∧
  If.ConditionType
    (processIfClause
       (mkIfClause [call ["["; "-f"; "a"; "]"]; call ["["; "a"; "b"; "]"]]
          [call ["echo"; "yes"]] None))
    = "file".
Proof. split; reflexivity. Qed.

(** C7 fails on every binary test.  The operator of [[ a op b ]] is the
    second argument; the switch reads the first, so the category of a binary
    test is that of its left operand, whatever the operator: the string test
    [[ "$NAME" = "World" ]] and the numeric test [[ "$COUNT" -eq 5 ]] both get
    the category command.  The cases =, != and -eq to -ge of the switch are
    reached only by a test that starts with the operator. *)
Theorem processIfClause_binary_test_unclassified :
  (∀ (left op right : Word) (Then : list Stmt) (Else : option IfClause),
     If.ConditionType
       (processIfClause
          (mkIfClause
             [mkStmt (Some (CmdCallExpr
                (CallExpr.mk [] [lit "["; left; op; right; lit "]"])))]
             Then Else))
     = category (extractWordValue left)) ∧
  (∀ (name right : string) (op : Word) (Then : list Stmt) (Else : option IfClause),
     If.ConditionType
       (processIfClause
          (mkIfClause
             [mkStmt (Some (CmdCallExpr
                (CallExpr.mk []
                   [lit "["; Word.mk [DblQuoted [ParamExp name]]; op;
                    Word.mk [DblQuoted [Lit right]]; lit "]"])))]
             Then Else))
     = "command") ∧
  If.ConditionType
    (processIfClause
       (mkIfClause
          [mkStmt (Some (CmdCallExpr
             (CallExpr.mk []
                [lit "["; Word.mk [DblQuoted [ParamExp "COUNT"]]; lit "-eq";
                 lit "5"; lit "]"])))]
          [call ["echo"; "five"]] None))
    = "command" ∧
  If.ConditionType
    (processIfClause
       (mkIfClause [call ["["; "="; "a"; "b"; "]"]] [call ["echo"; "same"]] None))
    = "string".
Proof.
  assert (∀ (left op right : Word) (Then : list Stmt) (Else : option IfClause),
            If.ConditionType
              (processIfClause
                 (mkIfClause
                    [mkStmt (Some (CmdCallExpr
                       (CallExpr.mk [] [lit "["; left; op; right; lit "]"])))]
                    Then Else))
            = category (extractWordValue left)) as Hleft.
  { intros left op right Then Else.
    exact (processIfClause_ConditionType
             (CallExpr.mk [] [lit "["; left; op; right; lit "]"]) Then Else
             (or_intror eq_refl)). }
  split; [exact Hleft|]. split; [|split; reflexivity].
  intros name right op Then Else. rewrite Hleft. reflexivity.
Qed.

(** The builder keeps at most one elif pair and never fills the else
    branch. *)
Lemma processIfClause_ElifBlocks_length (x : IfClause) :
  (List.length (If.ElifBlocks (processIfClause x)) ≤ 1)%nat ∧
  If.ElseBlock (processIfClause x) = [].
Proof.
  destruct x as [Cond Then Else]. rewrite processIfClause_unfold. cbn.
  destruct Else; cbn; split; (lia || reflexivity).
Qed.

End Conditionals.

(** ** Pipelines ([parser.flattenPipe]) *)

Section Pipelines.
Import syntax parser.

Lemma flattenPipe_Stmt_length (s : Stmt) : (List.length (flattenPipe (NodeStmt s)) ≤ 1)%nat.
Proof.
  destruct s as [[cmd|]]; [destruct cmd|]; simp flattenPipe; cbn; lia.
Qed.

Lemma flattenPipe_length (node : Node) : (List.length (flattenPipe node) ≤ 2)%nat.
Proof.
  destruct node as [f|s|c|[Op X Y]|].
  - simp flattenPipe. cbn. lia.
  - pose proof (flattenPipe_Stmt_length s). lia.
  - simp flattenPipe. cbn. lia.
  - pose proof (flattenPipe_Stmt_length X). pose proof (flattenPipe_Stmt_length Y).
    simp flattenPipe. destruct Op; rewrite List.length_app; cbn; lia.
  - simp flattenPipe. cbn. lia.
Qed.

(** C4 at [ls -la | grep .sh | wc -l]: an operand of a pipe is a statement,
    and a statement that holds a pipe contributes no command.  Nested to the
    left the pipeline flattens to [wc -l] alone, nested to the right to
    [ls -la] alone; no node flattens to more than two commands. *)
Theorem flattenPipe_nested_pipe_dropped :
  flattenPipe
    (NodeBinaryCmd
       (mkBinaryCmd syntax.Pipe (piped (call ["ls"; "-la"]) (call ["grep"; ".sh"]))
          (call ["wc"; "-l"])))
    = [Command.mk "wc" ["-l"] false true] ∧
  flattenPipe
    (NodeBinaryCmd
       (mkBinaryCmd syntax.Pipe (call ["ls"; "-la"])
          (piped (call ["grep"; ".sh"]) (call ["wc"; "-l"]))))
    = [Command.mk "ls" ["-la"] false true] ∧
  ∀ node : Node, (List.length (flattenPipe node) ≤ 2)%nat.
Proof.
  split; [|split].
  - by simp flattenPipe.
  - by simp flattenPipe.
  - apply flattenPipe_length.
Qed.

End Pipelines.

(** ** Commands ([generator.generateCommand]) *)

Section Commands.
Import parser generator.

Lemma generateStatement_command (cmd : Command) :
  generateStatement (command cmd) = generateCommand cmd.
Proof. reflexivity. Qed.

Lemma append_assoc (s1 s2 s3 : string) : (s1 +:+ s2) +:+ s3 = s1 +:+ (s2 +:+ s3).
Proof.
  induction s1 as [|c s1 IH]; [reflexivity|].
  change (String c ((s1 +:+ s2) +:+ s3) = String c (s1 +:+ (s2 +:+ s3))).
  by rewrite IH.
Qed.

Lemma append_empty (s : string) : s +:+ EmptyString = s.
Proof.
  induction s as [|c s IH]; [reflexivity|].
  change (String c (s +:+ EmptyString) = String c s). by rewrite IH.
Qed.

Lemma writeAll_prefixed {S : Type} (f : S → Gen (string * error)) (stmts : list S) :
  ∀ (written : string) (g : gmap string bool),
    writeAll f stmts written g = prefixed written (writeAll f stmts EmptyString g).
Proof.
  induction stmts as [|stmt rest IH]; intros written g; cbn [writeAll].
  - cbn. by rewrite append_empty.
  - unfold mbind, Gen_bind. destruct (f stmt g) as [[[c [e|]] g1]|]; cbn;
      [reflexivity| |reflexivity].
    rewrite (IH (written +:+ c +:+ LF)), (IH (EmptyString +:+ c +:+ LF)).
    destruct (writeAll f rest EmptyString g1) as [[[tl [e'|]] g2]|]; cbn;
      [reflexivity| |reflexivity].
    change (EmptyString +:+ c +:+ LF) with (c +:+ LF).
    by rewrite !append_assoc.
Qed.

(** C10: for rm or mkdir without arguments, and for cp with fewer than two,
    [generateCommand] returns without error a single comment line; the
    generation of a statement list that holds the command goes on after it,
    with the comment in the place of the command. *)
Theorem generateCommand_missing_operands (cmd : Command) (warning : string)
    (pkgs : list string) (g : gmap string bool) :
  missing_operands cmd warning pkgs →
  generateCommand cmd g =
    Some ((warning, None), foldl (λ g pkg, <[pkg := true]> g) g pkgs) ∧
  (∀ rest : list Statement,
     generateStatements (command cmd :: rest) g =
     prefixed (warning +:+ LF)
       (generateStatements rest (foldl (λ g pkg, <[pkg := true]> g) g pkgs))) ∧
  HasPrefix warning "//" = true ∧
  Contains warning LF = false.
Proof.
  intros H.
  assert (generateCommand cmd g =
            Some ((warning, None), foldl (λ g pkg, <[pkg := true]> g) g pkgs)) as Hcmd.
  { destruct H as [cmd Hn Ha|cmd Hn Ha|cmd Hn Ha];
      unfold generateCommand; rewrite Hn; cbn [String.eqb Ascii.eqb Bool.eqb orb].
    - rewrite Ha. reflexivity.
    - rewrite Ha. reflexivity.
    - destruct (Command.Args cmd) as [|src [|dst rest]]; [reflexivity..|].
      cbn in Ha. lia. }
  split; [exact Hcmd|]. split.
  - intros rest. unfold generateStatements. cbn [writeAll].
    unfold mbind, Gen_bind. rewrite generateStatement_command, Hcmd. cbn.
    apply writeAll_prefixed.
  - destruct H; split; reflexivity.
Qed.

Lemma generateCommand_missing_operands_witness :
  generateCommand (Command.mk "cp" ["notes.txt"] false true) ∅ =
    Some (("// Warning: cp command with insufficient arguments", None),
          <["os" := true]> (<["io/ioutil" := true]> ∅)) ∧
  (∀ rest : list Statement,
     generateStatements (command (Command.mk "cp" ["notes.txt"] false true) :: rest) ∅ =
     prefixed ("// Warning: cp command with insufficient arguments" +:+ LF)
       (generateStatements rest (<["os" := true]> (<["io/ioutil" := true]> ∅)))) ∧
  HasPrefix "// Warning: cp command with insufficient arguments" "//" = true ∧
  Contains "// Warning: cp command with insufficient arguments" LF = false.
Proof.
  apply (generateCommand_missing_operands
           (Command.mk "cp" ["notes.txt"] false true)
           "// Warning: cp command with insufficient arguments"
           ["io/ioutil"; "os"] ∅).
  apply missing_cp; [reflexivity|cbn; lia].
Defined.

(** C9 at [mkdir -p build/out]: the directory created is the first argument,
    the flag -p; whatever follows the first argument is not read. *)
Theorem generateCommand_mkdir_first_argument :
  generateCommand (Command.mk "mkdir" ["-p"; "build/out"] false true) ∅ =
    Some (("err = os.MkdirAll(" +:+ DQ +:+ "-p" +:+ DQ +:+ ", 0755)", None),
          <["os" := true]> ∅) ∧
  ∀ (arg : string) (rest : list string) (builtin useGexe : bool) (g : gmap string bool),
    generateCommand (Command.mk "mkdir" (arg :: rest) builtin useGexe) g =
    generateCommand (Command.mk "mkdir" [arg] builtin useGexe) g.
Proof. split; [reflexivity|]. intros. reflexivity. Qed.

End Commands.

(** ** Interpolation, subshells and elif chains in the generated code *)

Section Lowering.
Import syntax parser generator.

(** C6, the scenario [NAME="World"] then [echo "Hello, $NAME!"]: the builder
    drops the quotes of both words, so the assignment binds NAME to the
    identifier World, and the argument of echo neither starts with a quote
    nor with a dollar: it is printed as one string literal in which
    [${NAME}] is plain text. *)
Theorem hello_name_not_spliced :
  let assign :=
    Assign.mk false (Some "NAME") (Some (Word.mk [DblQuoted [Lit "World"]])) in
  let assignment := Assignment.mk "NAME" "World" false false in
  let echo :=
    CallExpr.mk []
      [lit "echo"; Word.mk [DblQuoted [Lit "Hello, "; ParamExp "NAME"; Lit "!"]]] in
  processAssign assign = Some assignment ∧
  processCallExpr echo = Command.mk "echo" ["Hello, ${NAME}!"] true false ∧
  result (generateAssignment assignment) = Some ("NAME := World", None) ∧
  result (generateCommand (processCallExpr echo)) =
    Some ("fmt.Println(" +:+ DQ +:+ "Hello, ${NAME}!" +:+ DQ +:+ ")", None) ∧
  result (generateStatements
            [mkStatement StatementAssignment (VAssignment assignment);
             command (processCallExpr echo)]) =
    Some ("NAME := World" +:+ LF
          +:+ "fmt.Println(" +:+ DQ +:+ "Hello, ${NAME}!" +:+ DQ +:+ ")" +:+ LF, None).
Proof. repeat split. Qed.

(** An argument that starts neither with a quote nor with a dollar is
    emitted as one string literal, whatever it holds. *)
Lemma echoArg_unquoted (arg : string) :
  HasPrefix arg DQ = false → HasPrefix arg "$" = false →
  echoArg arg = Some (DQ +:+ arg +:+ DQ).
Proof. intros H1 H2. unfold echoArg. by rewrite H1, H2. Qed.

(** The splicing the claim describes is what [echoArg] does with an argument
    that still carries its quotes. *)
Lemma echoArg_quoted :
  echoArg (DQ +:+ "Hello, $NAME!" +:+ DQ) =
    Some (DQ +:+ "Hello, " +:+ DQ +:+ " + NAME + " +:+ DQ +:+ "!" +:+ DQ).
Proof. reflexivity. Qed.

(** C8 at the subshell [( cd /tmp )]: the body is wrapped in a function
    literal that is called at once, and inside it the directory is changed
    by [os.Chdir], which acts on the whole process; the emitted text neither
    reads the directory before the call nor restores it after. *)
Theorem generateSubshell_chdir_not_restored :
  processSubshell [call ["cd"; "/tmp"]] =
    Subshell.mk [command (Command.mk "cd" ["/tmp"] true false)] ∧
  result (generateSubshell (processSubshell [call ["cd"; "/tmp"]])) =
    Some ("// Execute subshell" +:+ LF
          +:+ TAB +:+ "func() {" +:+ LF
          +:+ TAB +:+ TAB +:+ "err = os.Chdir(" +:+ DQ +:+ "/tmp" +:+ DQ +:+ ")" +:+ LF
          +:+ LF
          +:+ TAB +:+ "}()", None) ∧
  result (generateStatements
            [mkStatement StatementSubshell
               (VSubshell (processSubshell [call ["cd"; "/tmp"]]));
             command (Command.mk "pwd" [] true false)]) =
    Some ("// Execute subshell" +:+ LF
          +:+ TAB +:+ "func() {" +:+ LF
          +:+ TAB +:+ TAB +:+ "err = os.Chdir(" +:+ DQ +:+ "/tmp" +:+ DQ +:+ ")" +:+ LF
          +:+ LF
          +:+ TAB +:+ "}()" +:+ LF
          +:+ "dir, err := os.Getwd()" +:+ LF
          +:+ TAB +:+ "if err != nil {" +:+ LF
          +:+ TAB +:+ TAB +:+ "return err" +:+ LF
          +:+ TAB +:+ "}" +:+ LF
          +:+ TAB +:+ "fmt.Println(dir)" +:+ LF, None).
Proof. repeat split. Qed.

(** What [generateSubshell] adds around the code of the body. *)
Lemma generateSubshell_wraps (stmts : list Statement) (body : string)
    (g g' : gmap string bool) :
  generateStatements stmts g = Some ((body, None), g') →
  generateSubshell (Subshell.mk stmts) g =
    Some (("// Execute subshell" +:+ LF +:+ TAB +:+ "func() {" +:+ LF +:+ TAB +:+ TAB
           +:+ body +:+ LF +:+ TAB +:+ "}()", None), g').
Proof.
  intros H. unfold generateSubshell, generateSubshell_, try.
  cbn [Subshell.Statements]. unfold mbind, Gen_bind. rewrite H. reflexivity.
Qed.

(** [generateIf] does not read [ElifBlocks]. *)
Lemma generateIf_ignores_ElifBlocks (ifStmt : If)
    (elifBlocks : list (list Statement * list Statement)) :
  generateIf
    (If.mk (If.Condition ifStmt) (If.ThenBlock ifStmt) (If.ElseBlock ifStmt)
       elifBlocks (If.ConditionType ifStmt)) = generateIf ifStmt.
Proof. reflexivity. Qed.

(** C3 at a chain with two elif clauses and an else,
    [if a; then echo 1; elif b; then echo 2; elif c; then echo 3; else echo 4; fi]:
    the builder keeps the pair of the first elif only and leaves the else
    branch empty, and the generated code is the if with its then branch
    alone.  No chain gives more than one pair or a filled else branch, and
    the generator does not read the pairs. *)
Theorem processIfClause_elif_chain_lost :
  let chain :=
    mkIfClause [call ["a"]] [call ["echo"; "1"]]
      (Some (mkIfClause [call ["b"]] [call ["echo"; "2"]]
         (Some (mkIfClause [call ["c"]] [call ["echo"; "3"]]
            (Some (mkIfClause [] [call ["echo"; "4"]] None)))))) in
  processIfClause chain =
    If.mk [command (Command.mk "a" [] false true)]
          [command (Command.mk "echo" ["1"] true false)]
          []
          [([command (Command.mk "b" [] false true)],
            [command (Command.mk "echo" ["2"] true false)])]
          "command" ∧
  result (generateIf (processIfClause chain)) =
    Some ("if exe.Run(" +:+ DQ +:+ "a" +:+ DQ +:+ ").Success() {" +:+ LF
          +:+ "fmt.Println(" +:+ DQ +:+ "1" +:+ DQ +:+ ")" +:+ LF
          +:+ "}", None) ∧
  (∀ x : IfClause,
     (List.length (If.ElifBlocks (processIfClause x)) ≤ 1)%nat ∧
     If.ElseBlock (processIfClause x) = []) ∧
  (∀ (ifStmt : If) (elifBlocks : list (list Statement * list Statement)),
     generateIf
       (If.mk (If.Condition ifStmt) (If.ThenBlock ifStmt) (If.ElseBlock ifStmt)
          elifBlocks (If.ConditionType ifStmt)) = generateIf ifStmt).
Proof.
  split; [reflexivity|]. split; [reflexivity|]. split.
  - apply processIfClause_ElifBlocks_length.
  - apply generateIf_ignores_ElifBlocks.
Qed.

End Lowering.

(** ** Constructs without a lowering rule *)

Section Unsupported.
Import syntax.

Lemma processCommand_supported (fmt_v : WordPart → string) (cmd : Command) :
  (∀ k, cmd ≠ CmdOther k) → (visitor.processCommand fmt_v cmd).2 = None.
Proof.
  intros H. destruct cmd as [c|c|u co d|d|s|s|[Op X Y]|n b|k]; try reflexivity.
  - by destruct Op.
  - by destruct (H k).
Qed.

Lemma VisitNode_supported (fmt_v : WordPart → string)
    (ir : visitor.IntermediateRepresentation) (stmt : Stmt) :
  supported stmt → (visitor.VisitNode fmt_v ir (NodeStmt stmt)).2 = None.
Proof.
  destruct stmt as [[cmd|]]; intros H; simp VisitNode; [|reflexivity].
  pose proof (processCommand_supported fmt_v cmd) as Hp.
  destruct (visitor.processCommand fmt_v cmd) as [s [e|]]; [|reflexivity].
  cbn in Hp. enough (Some e = None) by discriminate. apply Hp.
  intros k ->. exact H.
Qed.

Lemma VisitNode_other (fmt_v : WordPart → string)
    (ir : visitor.IntermediateRepresentation) (k : OtherCommand) :
  visitor.VisitNode fmt_v ir (NodeStmt (mkStmt (Some (CmdOther k)))) =
    (ir, Some ("unsupported command type: " +:+ typeName (CmdOther k))).
Proof. by simp VisitNode. Qed.

Lemma visitAll_aborts (fmt_v : WordPart → string) (pre rest : list Stmt)
    (k : OtherCommand) :
  Forall supported pre →
  ∀ ir, (visitor.visitAll
           (λ ir' stmt, visitor.VisitNode fmt_v ir' (NodeStmt stmt)) ir
           (pre ++ mkStmt (Some (CmdOther k)) :: rest)).2 =
        Some ("unsupported command type: " +:+ typeName (CmdOther k)).
Proof.
  induction 1 as [|stmt pre Hs _ IH]; intros ir; cbn [app visitor.visitAll].
  - by rewrite VisitNode_other.
  - pose proof (VisitNode_supported fmt_v ir stmt Hs) as Hv.
    destruct (visitor.VisitNode fmt_v ir (NodeStmt stmt)) as [ir' [e|]];
      [discriminate Hv|apply IH].
Qed.

(** C1, as the code has it.  In the [VisitNode] builder a command of a kind
    without a case (case, arithmetic, test, declaration, let, time and
    coprocess clauses) stops the build with the error "unsupported command
    type" and no representation is returned, whatever precedes or follows
    it; blocks, if clauses, while and for loops, function declarations and
    binary commands other than pipes are each replaced by an echo of a
    "not fully implemented" message.  In the generator a statement whose tag
    is none of the ten statement types is replaced, without error, by the
    comment line "// Unsupported statement type: <tag>". *)
Theorem unsupported_constructs (fmt_v : WordPart → string) (pre rest : list Stmt)
    (k : OtherCommand) (ty : parser.StatementType)
    (value : parser.Payload parser.Statement) (g : gmap string bool) :
  Forall supported pre →
  (ty < 0 ∨ 9 < ty)%Z →
  visitor.BuildIR fmt_v (File.mk (pre ++ mkStmt (Some (CmdOther k)) :: rest)) =
    (None, Some ("unsupported command type: " +:+ typeName (CmdOther k))) ∧
  (∀ (stmts cond body : list Stmt) (c : IfClause) (until : bool) (name : string)
     (X Y : Stmt),
     visitor.processCommand fmt_v (CmdBlock stmts) =
       (visitor.dummy "Block not fully implemented", None) ∧
     visitor.processCommand fmt_v (CmdIfClause c) =
       (visitor.dummy "If statement not fully implemented", None) ∧
     visitor.processCommand fmt_v (CmdWhileClause until cond body) =
       (visitor.dummy "While loop not fully implemented", None) ∧
     visitor.processCommand fmt_v (CmdForClause body) =
       (visitor.dummy "For loop not fully implemented", None) ∧
     visitor.processCommand fmt_v (CmdFuncDecl name X) =
       (visitor.dummy "Function declaration not fully implemented", None) ∧
     visitor.processCommand fmt_v (CmdBinaryCmd (mkBinaryCmd AndStmt X Y)) =
       (visitor.dummy "Binary command not fully implemented", None) ∧
     visitor.processCommand fmt_v (CmdBinaryCmd (mkBinaryCmd OrStmt X Y)) =
       (visitor.dummy "Binary command not fully implemented", None) ∧
     visitor.processCommand fmt_v (CmdBinaryCmd (mkBinaryCmd PipeAll X Y)) =
       (visitor.dummy "Binary command not fully implemented", None)) ∧
  generator.generateStatement (parser.mkStatement ty value) g =
    Some (("// Unsupported statement type: " +:+ pretty ty, None), g).
Proof.
  intros Hpre Hty. split; [|split].
  - unfold visitor.BuildIR. simp VisitNode. cbn [File.Stmts].
    pose proof (visitAll_aborts fmt_v pre rest k Hpre
                  visitor.NewIntermediateRepresentation) as Hv.
    destruct (visitor.visitAll _ _ _) as [ir [e|]]; cbn in Hv; [|discriminate Hv].
    by inversion Hv.
  - intros. repeat split.
  - cbn [generator.generateStatement].
    unfold parser.StatementCommand, parser.StatementAssignment, parser.StatementIf,
      parser.StatementLoop, parser.StatementPipe, parser.StatementSubshell,
      parser.StatementRedirection, parser.StatementFunction,
      parser.StatementBackground, parser.StatementReturn.
    assert (∀ n, (0 ≤ n ≤ 9)%Z → (ty =? n)%Z = false) as Hne
      by (intros n Hn; apply Z.eqb_neq; lia).
    rewrite !Hne by lia. reflexivity.
Qed.

Lemma unsupported_constructs_witness :
  visitor.BuildIR no_fmt
    (File.mk ([call ["echo"; "start"]] ++ mkStmt (Some (CmdOther CaseClause))
                :: [call ["echo"; "end"]])) =
    (None, Some "unsupported command type: *syntax.CaseClause") ∧
  generator.generateStatement (parser.mkStatement 42%Z parser.VNil) ∅ =
    Some (("// Unsupported statement type: 42", None), ∅).
Proof.
  destruct (unsupported_constructs no_fmt [call ["echo"; "start"]]
              [call ["echo"; "end"]] CaseClause 42%Z parser.VNil ∅) as (H1 & _ & H3).
  - repeat constructor.
  - right. reflexivity.
  - split; [exact H1|exact H3].
Defined.

(** C1 as stated fails.  A block is a construct the [VisitNode] builder has
    no lowering for: the build succeeds and the representation holds an echo
    of "Block not fully implemented" in its place.  A statement with a tag
    the generator does not know is generated, without error, as a comment
    line, and the statement after it is generated as usual. *)
Lemma placeholder_for_unsupported :
  visitor.BuildIR no_fmt (File.mk [mkStmt (Some (CmdBlock [call ["ls"]]))]) =
    (Some (visitor.IntermediateRepresentation.mk ∅ ∅
             [visitor.mkStatement visitor.StatementCommand
                (visitor.VCommand
                   (visitor.Command.mk "echo" ["Block not fully implemented"]))]),
     None) ∧
  result (generator.generateStatements
            [parser.mkStatement 42%Z parser.VNil;
             command (parser.Command.mk "pwd" [] true false)]) =
    Some ("// Unsupported statement type: 42" +:+ LF
          +:+ "dir, err := os.Getwd()" +:+ LF
          +:+ TAB +:+ "if err != nil {" +:+ LF
          +:+ TAB +:+ TAB +:+ "return err" +:+ LF
          +:+ TAB +:+ "}" +:+ LF
          +:+ TAB +:+ "fmt.Println(dir)" +:+ LF, None).
Proof. split; reflexivity. Qed.

End Unsupported.

(** ** The order of what [Generate] emits *)

Section Determinism.
Import parser generator.

(** The imports are written in the order of [sort.Strings]. *)
Lemma sort_Strings_Sorted (x : list string) : Sorted String.le (sort_Strings x).
Proof. apply Sorted_merge_sort, _. Qed.

(** The sorted list of keys is the same for every visit of the map. *)
Lemma sort_Strings_traversal (m : gmap string bool) (order : list (string * bool)) :
  traversal m order → sort_Strings order.*1 = sort_Strings (map_to_list m).*1.
Proof.
  intros H. apply (Sorted_unique String.le); [apply sort_Strings_Sorted..|].
  unfold sort_Strings. rewrite !merge_sort_Permutation. by rewrite H.
Qed.

Lemma AddImport_comm (cg : CodeGenerator) (p q : string) :
  AddImport (AddImport cg p) q = AddImport (AddImport cg q) p.
Proof.
  unfold AddImport. cbn. f_equal.
  destruct (decide (p = q)) as [->|Hne]; [done|]. by apply insert_insert_ne.
Qed.

(** The import map filled by [Generate] is the same for every visit of
    [g.RequiredImports]. *)
Lemma AddImport_traversal (m : gmap string bool) (order : list (string * bool))
    (cg : CodeGenerator) :
  traversal m order →
  foldl (λ cg imp, AddImport cg imp.1) cg order =
  foldl (λ cg imp, AddImport cg imp.1) cg (map_to_list m).
Proof.
  unfold traversal. generalize (map_to_list m). intros l H. revert cg.
  induction H as [|x l1 l2 _ IH|x y l|l1 l2 l3 _ IH1 _ IH2]; intros cg; cbn.
  - reflexivity.
  - apply IH.
  - by rewrite AddImport_comm.
  - by rewrite IH1.
Qed.

(** C2 at a program with the two variables of examples/simple.sh, NAME and
    COUNT, and at a program with two functions.  Both orders of the two
    entries are visits of the map, and the text handed to the formatter
    declares the variables, and defines the functions, in the order of the
    visit: the two texts differ. *)
Theorem Generate_follows_map_order :
  let vars : gmap string string := <["NAME" := "World"]> (<["COUNT" := "5"]> ∅) in
  let greet : parser.Function :=
    parser.Function.mk "greet" [command (Command.mk "echo" ["hi"] true false)] [] ∅ in
  let usage : parser.Function :=
    parser.Function.mk "usage" [command (Command.mk "echo" ["usage"] true false)] [] ∅ in
  let funcs : gmap string parser.Function :=
    <["greet" := greet]> (<["usage" := usage]> ∅) in
  let text (decls : string) : string :=
    "package main" +:+ LF +:+ LF
    +:+ decls
    +:+ "// Main function generated from Bash script" +:+ LF
    +:+ "func main() {" +:+ LF +:+ TAB +:+ LF +:+ "}" +:+ LF +:+ LF in
  let var (name value : string) : string :=
    "var " +:+ name +:+ " = " +:+ value +:+ LF in
  let func (name word : string) : string :=
    "// Function " +:+ name +:+ " from the original Bash script" +:+ LF
    +:+ "func " +:+ name +:+ "() {" +:+ LF
    +:+ TAB +:+ "fmt.Println(" +:+ DQ +:+ word +:+ DQ +:+ ")" +:+ LF
    +:+ TAB +:+ LF +:+ "}" +:+ LF +:+ LF in
  traversal vars [("COUNT", "5"); ("NAME", "World")] ∧
  traversal vars [("NAME", "World"); ("COUNT", "5")] ∧
  traversal funcs [("greet", greet); ("usage", usage)] ∧
  traversal funcs [("usage", usage); ("greet", greet)] ∧
  (∀ format_Source : string → string + string,
     Generate format_Source [("COUNT", "5"); ("NAME", "World")] []
       (IntermediateRepresentation.mk vars ∅ [] ∅) =
       Some (Format format_Source
               (CodeBuilder.mk (text (var "COUNT" "5" +:+ var "NAME" "World" +:+ LF))
                  0 TAB)) ∧
     Generate format_Source [("NAME", "World"); ("COUNT", "5")] []
       (IntermediateRepresentation.mk vars ∅ [] ∅) =
       Some (Format format_Source
               (CodeBuilder.mk (text (var "NAME" "World" +:+ var "COUNT" "5" +:+ LF))
                  0 TAB)) ∧
     Generate format_Source [] [("greet", greet); ("usage", usage)]
       (IntermediateRepresentation.mk ∅ funcs [] ∅) =
       Some (Format format_Source
               (CodeBuilder.mk (text (func "greet" "hi" +:+ func "usage" "usage"))
                  0 TAB)) ∧
     Generate format_Source [] [("usage", usage); ("greet", greet)]
       (IntermediateRepresentation.mk ∅ funcs [] ∅) =
       Some (Format format_Source
               (CodeBuilder.mk (text (func "usage" "usage" +:+ func "greet" "hi"))
                  0 TAB))) ∧
  text (var "COUNT" "5" +:+ var "NAME" "World" +:+ LF) ≠
    text (var "NAME" "World" +:+ var "COUNT" "5" +:+ LF) ∧
  text (func "greet" "hi" +:+ func "usage" "usage") ≠
    text (func "usage" "usage" +:+ func "greet" "hi").
Proof.
  cbv zeta.
  assert (∀ (A : Type) (m : gmap string A) (a b : string * A),
            map_to_list m = [a; b] ∨ map_to_list m = [b; a] →
            traversal m [a; b]) as Htwo.
  { intros A m a b H. unfold traversal.
    destruct H as [-> | ->]; [reflexivity|apply perm_swap]. }
  repeat split.
  - apply Htwo. left. vm_compute. reflexivity.
  - apply Htwo. right. vm_compute. reflexivity.
  - apply Htwo. left. vm_compute. reflexivity.
  - apply Htwo. right. vm_compute. reflexivity.
  - vm_compute. discriminate.
  - vm_compute. discriminate.
Qed.

End Determinism.

(** * Further properties of the code *)

(** ** Generation returns no error and records known packages *)

Section Soundness.
Import parser generator.

Lemma Statement_nested_ind (P : Statement → Prop) :
  (∀ (ty : StatementType) (value : Payload Statement),
     nested P value → P (mkStatement ty value)) →
  ∀ stmt : Statement, P stmt.
Proof.
  intros H. fix IH 1. intros [ty value]. apply H.
  assert (∀ l : list Statement, Forall P l) as Hall.
  { fix go 1. intros [|x l]; constructor; [apply IH|apply go]. }
  destruct value; cbn; auto.
Qed.

Lemma extends_refl (g : gmap string bool) : extends g g.
Proof. intros k. by left. Qed.

Lemma extends_trans (g1 g2 g3 : gmap string bool) :
  extends g1 g2 → extends g2 g3 → extends g1 g3.
Proof.
  intros H12 H23 k. destruct (H23 k) as [->|H]; [apply H12|by right].
Qed.

Lemma extends_insert (g : gmap string bool) (pkg : string) :
  pkg ∈ packages → extends g (<[pkg := true]> g).
Proof.
  intros Hin k. destruct (decide (pkg = k)) as [<-|Hne].
  - right. by rewrite lookup_insert_eq.
  - left. by rewrite lookup_insert_ne.
Qed.

Lemma sound_ok (code : string) : sound (ok code).
Proof. intros g g' c e [= <- <- <-]. split; [done|apply extends_refl]. Qed.

Lemma sound_panic : sound panic.
Proof. intros g g' c e [=]. Qed.

Lemma sound_require (pkg : string) (m : Gen (string * error)) :
  pkg ∈ packages → sound m → sound (require pkg;; m).
Proof.
  intros Hin Hm g g' c e H. apply Hm in H as [-> H]. split; [done|].
  eapply extends_trans; [by apply extends_insert|done].
Qed.

Lemma sound_lift {A : Type} (o : option A) (k : A → Gen (string * error)) :
  (∀ a, sound (k a)) → sound (lift o ≫= k).
Proof.
  intros Hk g g' c e. unfold mbind, Gen_bind, lift. destruct o as [a|]; [|done].
  apply Hk.
Qed.

Lemma sound_try (m : Gen (string * error)) (k : string → Gen (string * error)) :
  sound m → (∀ code, sound (k code)) → sound (try m k).
Proof.
  intros Hm Hk g g' c e. unfold try, mbind, Gen_bind.
  destruct (m g) as [[[c1 e1] g1]|] eqn:Hg; [|done].
  apply Hm in Hg as [-> H1]. cbn. intros H. apply Hk in H as [-> H2].
  split; [done|by eapply extends_trans].
Qed.

End Soundness.

(** *** The generator methods are sound *)

Section Soundness_leaves.
Import strings parser generator.

Lemma packages_elem (pkg : string) :
  bool_decide (pkg ∈ packages) = true → pkg ∈ packages.
Proof. apply bool_decide_eq_true. Qed.

Ltac sound_step :=
  first
    [ apply sound_ok
    | apply sound_panic
    | apply sound_require; [apply packages_elem; reflexivity|]
    | apply sound_lift; intros ?
    | apply sound_try; [|intros ?]
    | case_match ].

Lemma generateCommand_sound (cmd : Command) : sound (generateCommand cmd).
Proof.
  unfold generateCommand, generateTest, generateExternal. repeat sound_step.
Qed.

Lemma generateAssignment_sound (a : Assignment) : sound (generateAssignment a).
Proof. unfold generateAssignment. repeat sound_step. Qed.

Lemma generatePipe_sound (p : Pipe) : sound (generatePipe p).
Proof. unfold generatePipe. repeat sound_step. Qed.

Lemma generateRedirection_sound (r : Redirection) : sound (generateRedirection r).
Proof. unfold generateRedirection. repeat sound_step. Qed.

Lemma nativeCondition_sound (args : list string) (m : Gen (string * error)) :
  nativeCondition args = Some m → sound m.
Proof.
  unfold nativeCondition. intros H. cbv zeta in H.
  repeat case_match; try discriminate H;
    injection H as <-; repeat sound_step.
Qed.

Lemma generateCondition_sound (c : list Statement) (ct : string) :
  sound (generateCondition c ct).
Proof.
  unfold generateCondition.
  assert (∀ cmd, sound (require gexe;;
      ok ("exe.Run(" +:+ DQ +:+ foldl (λ cmdStr arg, cmdStr +:+ " " +:+ arg)
             (Command.Name cmd) (Command.Args cmd) +:+ DQ +:+ ").Success()"))) as Hspawn
    by (intros; repeat sound_step).
  destruct c as [|[ty value] rest]; [apply sound_ok|].
  destruct (ty =? StatementCommand)%Z; [|apply sound_ok].
  destruct value; try apply sound_panic.
  destruct (_ || _); [|apply Hspawn].
  destruct (nativeCondition (Command.Args v)) as [m|] eqn:Hn; cbn; [|apply Hspawn].
  by eapply nativeCondition_sound.
Qed.

Lemma writeAll_sound (f : Statement → Gen (string * error)) (l : list Statement) :
  Forall (λ s, sound (f s)) l → ∀ written, sound (writeAll f l written).
Proof.
  induction 1 as [|s l Hs _ IH]; intros written; cbn [writeAll].
  - apply sound_ok.
  - intros g g' c e. unfold mbind, Gen_bind.
    destruct (f s g) as [[[c1 e1] g1]|] eqn:Hg; [|done].
    apply Hs in Hg as [-> H1]. cbn. intros H. apply IH in H as [-> H2].
    split; [done|by eapply extends_trans].
Qed.

Lemma generateStatement_sound (stmt : Statement) : sound (generateStatement stmt).
Proof.
  induction stmt as [ty value IH] using Statement_nested_ind.
  cbn [generateStatement].
  repeat (case_match; try apply sound_ok; try apply sound_panic);
    cbn [nested] in IH.
  all: try apply generateCommand_sound.
  all: try apply generateAssignment_sound.
  all: try apply generatePipe_sound.
  all: try apply generateRedirection_sound.
  - destruct IH as (_ & Ht & He). unfold generateIf_.
    apply sound_try; [apply generateCondition_sound|intros ?].
    apply sound_try; [by apply writeAll_sound|intros ?].
    apply sound_try; [|intros ?; apply sound_ok].
    case_match; [apply sound_ok|]. by apply writeAll_sound.
  - destruct IH as (_ & Hb). unfold generateLoop_.
    apply sound_try; [by apply writeAll_sound|intros ?].
    repeat sound_step; apply generateCondition_sound.
  - unfold generateSubshell_. apply sound_try; [by apply writeAll_sound|intros ?].
    apply sound_ok.
  - apply sound_try; [apply generateCommand_sound|intros ?]. repeat sound_step.
Qed.

End Soundness_leaves.

(** ** Generation does not panic on well-tagged statements *)

Section Totality.
Import strings parser generator.

Lemma np_ok (code : string) : never_panics (ok code).
Proof. intros g. by eexists. Qed.

Lemma np_require {A : Type} (pkg : string) (m : Gen A) :
  never_panics m → never_panics (require pkg;; m).
Proof. intros Hm g. apply Hm. Qed.

Lemma np_lift {A B : Type} (o : option A) (k : A → Gen B) :
  is_Some o → (∀ a, never_panics (k a)) → never_panics (lift o ≫= k).
Proof. intros [a ->] Hk g. apply Hk. Qed.

Lemma np_try (m : Gen (string * error)) (k : string → Gen (string * error)) :
  never_panics m → (∀ code, never_panics (k code)) → never_panics (try m k).
Proof.
  intros Hm Hk g. unfold try, mbind, Gen_bind.
  destruct (Hm g) as [[[c e] g1] ->]. cbn. destruct e; [by eexists|apply Hk].
Qed.

Lemma slice_inner (s : string) :
  (2 ≤ String.length s)%nat → is_Some (slice s 1 (String.length s - 1)).
Proof.
  intros H. unfold slice.
  replace ((1 <=? String.length s - 1)%nat && (String.length s - 1 <=? String.length s)%nat)
    with true; [by eexists|].
  symmetry. apply andb_true_iff. split; apply Nat.leb_le; lia.
Qed.

Lemma HasPrefix_head (c d : ascii) (r : string) :
  HasPrefix (String d r) (String c EmptyString) = true → c = d.
Proof.
  unfold HasPrefix. cbn [String.prefix].
  by destruct (ascii_dec c d) as [->|].
Qed.

Lemma bracedVarName_never_panics (arg : string) : is_Some (bracedVarName arg).
Proof.
  unfold bracedVarName. generalize (TrimPrefix arg "$"). intros varName.
  destruct (HasPrefix varName "{" && HasSuffix varName "}") eqn:H; [|by eexists].
  apply slice_inner. apply andb_true_iff in H as [Hp Hs].
  destruct varName as [|c [|c2 r]]; [discriminate Hp| |cbn; lia].
  apply HasPrefix_head in Hp as <-. vm_compute in Hs. discriminate Hs.
Qed.

Lemma echoArg_never_panics (arg : string) : is_Some (echoArg arg).
Proof.
  unfold echoArg.
  destruct (HasPrefix arg DQ && HasSuffix arg DQ) eqn:H.
  - destruct (Contains arg "$") eqn:Hc; [|by eexists].
    destruct (slice_inner arg) as [inner ->]; [|by eexists].
    apply andb_true_iff in H as [Hp Hs].
    destruct arg as [|c [|c2 r]]; [discriminate Hp| |cbn; lia].
    apply HasPrefix_head in Hp as <-. vm_compute in Hc. discriminate Hc.
  - destruct (HasPrefix arg "$"); [apply bracedVarName_never_panics|by eexists].
Qed.

Lemma generateCommand_never_panics (cmd : Command) : never_panics (generateCommand cmd).
Proof.
  unfold generateCommand, generateTest, generateExternal.
  repeat first
    [ apply np_ok
    | apply np_require
    | apply np_lift;
        [first [apply bracedVarName_never_panics
               |apply mapM_is_Some, Forall_forall; intros; apply echoArg_never_panics]
        |intros ?]
    | case_match ].
Qed.

Lemma generateCondition_never_panics (c : list Statement) (ct : string) :
  forallb wellTagged c = true → never_panics (generateCondition c ct).
Proof.
  intros Hc. unfold generateCondition.
  destruct c as [|[ty value] rest]; [apply np_ok|].
  cbn [forallb wellTagged] in Hc. apply andb_true_iff in Hc as [Hc _].
  destruct (ty =? StatementCommand)%Z; [|apply np_ok].
  destruct value; try discriminate Hc.
  assert (∀ m : Gen (string * error), never_panics m →
            never_panics (default m (nativeCondition (Command.Args v)))) as Hn.
  { intros m Hm. unfold nativeCondition. cbv zeta.
    repeat case_match; cbn [default]; try exact Hm;
      repeat first [apply np_ok | apply np_require]. }
  destruct (_ || _); [apply Hn|]; apply np_require, np_ok.
Qed.

Lemma writeAll_never_panics (f : Statement → Gen (string * error)) (l : list Statement) :
  Forall (λ s, never_panics (f s)) l → ∀ written, never_panics (writeAll f l written).
Proof.
  induction 1 as [|s l Hs _ IH]; intros written; cbn [writeAll].
  - apply np_ok.
  - intros g. unfold mbind, Gen_bind. destruct (Hs g) as [[[c e] g1] ->]. cbn.
    destruct e; [by eexists|apply IH].
Qed.

Lemma wellTagged_Forall (P : Statement → Prop) (l : list Statement) :
  Forall (λ s, wellTagged s = true → P s) l → forallb wellTagged l = true → Forall P l.
Proof.
  induction 1 as [|s l Hs _ IH]; cbn; [constructor|].
  intros [H1 H2]%andb_true_iff. constructor; auto.
Qed.

Lemma generateStatement_never_panics (stmt : Statement) :
  wellTagged stmt = true → never_panics (generateStatement stmt).
Proof.
  induction stmt as [ty value IH] using Statement_nested_ind.
  cbn [generateStatement wellTagged]. intros Hw.
  repeat (case_match; try discriminate Hw; try apply np_ok);
    cbn [nested] in IH.
  all: try apply generateCommand_never_panics.
  - unfold generateAssignment. repeat first [apply np_ok|apply np_require|case_match].
  - apply andb_true_iff in Hw as [[Hc Ht]%andb_true_iff He].
    destruct IH as (_ & IHt & IHe). unfold generateIf_.
    apply np_try; [by apply generateCondition_never_panics|intros ?].
    apply np_try; [by apply writeAll_never_panics, (wellTagged_Forall _ _ IHt)|intros ?].
    apply np_try; [|intros ?; apply np_ok].
    case_match; [apply np_ok|]. by apply writeAll_never_panics, (wellTagged_Forall _ _ IHe).
  - apply andb_true_iff in Hw as [Hc Hb]. destruct IH as (_ & IHb).
    unfold generateLoop_.
    apply np_try; [by apply writeAll_never_panics, (wellTagged_Forall _ _ IHb)|intros ?].
    repeat first [apply np_ok|apply np_require
                 |apply np_try; [by apply generateCondition_never_panics|intros ?]
                 |case_match].
  - unfold generatePipe. repeat first [apply np_ok|apply np_require|case_match].
  - unfold generateSubshell_.
    apply np_try; [by apply writeAll_never_panics, (wellTagged_Forall _ _ IH)|intros ?].
    apply np_ok.
  - unfold generateRedirection. repeat first [apply np_ok|apply np_require|case_match].
  - apply np_try; [apply generateCommand_never_panics|intros ?].
    apply np_require, np_ok.
Qed.

End Totality.

(** ** What [Generate] hands to [Build] *)

Section GenerateLayout.
Import strings parser generator.

(** X1: whenever generateStatements returns, for any list of statements,
    its error is nil, and the only change to RequiredImports is that some of
    the packages fmt, os, io/ioutil, gexe, os/exec, strings and sync have
    been set to true; no entry is removed or set to false. *)
Theorem generateStatements_never_fails (statements : list Statement)
    (g g' : gmap string bool) (code : string) (err : error) :
  generateStatements statements g = Some ((code, err), g') →
  err = None ∧ extends g g'.
Proof.
  apply (writeAll_sound generateStatement statements).
  apply Forall_forall. intros s _. apply generateStatement_sound.
Qed.

Lemma generateStatements_never_fails_witness :
  (None : error) = None ∧
  extends ∅ (<["github.com/vladimirvivien/gexe" := true]> (<["os" := true]> ∅)).
Proof.
  apply (generateStatements_never_fails
           [command (Command.mk "cd" ["/tmp"] true false);
            command (Command.mk "ls" [] false true)]
           ∅ _
           ("err = os.Chdir(" +:+ DQ +:+ "/tmp" +:+ DQ +:+ ")" +:+ LF
            +:+ "// Execute command: ls" +:+ LF +:+ TAB
            +:+ "output := exe.Run(" +:+ DQ +:+ "ls" +:+ DQ +:+ ").Stdout()"
            +:+ LF +:+ TAB +:+ "fmt.Print(output)" +:+ LF)
           None).
  reflexivity.
Defined.

Lemma generateStatements_runs (statements : list Statement) (g : gmap string bool) :
  forallb wellTagged statements = true →
  ∃ (code : string) (g' : gmap string bool),
    generateStatements statements g = Some ((code, None), g').
Proof.
  intros Hw.
  destruct (writeAll_never_panics generateStatement statements) with
    (written := EmptyString) (g := g) as [[[code err] g'] Hrun].
  - apply (wellTagged_Forall _ statements); [|exact Hw].
    apply Forall_forall. intros s _. apply generateStatement_never_panics.
  - exists code, g'. unfold generateStatements. rewrite Hrun.
    apply (writeAll_sound generateStatement statements) in Hrun as [-> _]; [done|].
    apply Forall_forall. intros s _. apply generateStatement_sound.
Qed.

(** X2: on statements whose payloads have the type their tags announce, at
    every depth the generator reads, generateStatements does not panic: it
    returns a text with a nil error, and the imports it leaves extend those
    it started from by known packages only. *)
Theorem generateStatements_well_tagged (statements : list Statement)
    (g : gmap string bool) :
  forallb wellTagged statements = true →
  ∃ (code : string) (g' : gmap string bool),
    generateStatements statements g = Some ((code, None), g') ∧ extends g g'.
Proof.
  intros Hw. destruct (generateStatements_runs statements g Hw) as (code & g' & Hrun).
  exists code, g'. split; [exact Hrun|].
  apply (writeAll_sound generateStatement statements) in Hrun as [_ He]; [exact He|].
  apply Forall_forall. intros s _. apply generateStatement_sound.
Qed.

Lemma generateStatements_well_tagged_witness :
  ∃ (code : string) (g' : gmap string bool),
    generateStatements
      [mkStatement StatementSubshell
         (VSubshell (Subshell.mk [command (Command.mk "echo" ["$HOME"] true false)]))]
      ∅ = Some ((code, None), g') ∧ extends ∅ g'.
Proof.
  apply (generateStatements_well_tagged
           [mkStatement StatementSubshell
              (VSubshell (Subshell.mk [command (Command.mk "echo" ["$HOME"] true false)]))]
           ∅).
  reflexivity.
Defined.

Lemma scanStatement_keys (stmt : Statement) (g g' : gmap string bool) (k : string) :
  scanStatement stmt g = Some (tt, g') → is_Some (g' !! k) →
  is_Some (g !! k) ∨ k ∈ [gexe; "os/exec"; "fmt"].
Proof.
  unfold scanStatement, require, mbind, Gen_bind, mret, Gen_ret, panic.
  intros H Hk. repeat case_match; simplify_eq/=; auto;
    repeat (apply lookup_insert_is_Some in Hk as [Hk|[_ Hk]];
            [right; rewrite <- Hk; unfold gexe; set_solver|]);
    auto.
Qed.

Lemma scanStatements_keys (stmts : list Statement) :
  ∀ (g g' : gmap string bool) (k : string),
    scanStatements stmts g = Some (tt, g') → is_Some (g' !! k) →
    is_Some (g !! k) ∨ k ∈ [gexe; "os/exec"; "fmt"].
Proof.
  induction stmts as [|stmt rest IH]; intros g g' k; cbn [scanStatements].
  - intros [= ->]. auto.
  - unfold mbind, Gen_bind. destruct (scanStatement stmt g) as [[[] g1]|] eqn:H1; [|done].
    intros H2 Hk. destruct (IH _ _ _ H2 Hk) as [Hk1|]; [|by right].
    by eapply scanStatement_keys.
Qed.

Lemma AddImport_keys (l : list (string * bool)) :
  ∀ (cg : CodeGenerator) (k : string),
    is_Some (CodeGenerator.imports (foldl (λ cg imp, AddImport cg imp.1) cg l) !! k) ↔
    is_Some (CodeGenerator.imports cg !! k) ∨ k ∈ l.*1.
Proof.
  induction l as [|[p b] l IH]; intros cg k; cbn [foldl fmap list_fmap].
  - split; [by left|]. intros [H|H]; [exact H|]. by apply elem_of_nil in H.
  - rewrite IH. cbn. rewrite lookup_insert_is_Some, elem_of_cons. split.
    + intros [[->|[_ H]]|H]; auto.
    + intros [H|[->|H]]; auto.
      destruct (decide (p = k)) as [->|Hne]; auto.
Qed.

Lemma fold_AddGlobal (vo : list (string * string)) :
  ∀ cg : CodeGenerator,
    let cg' := foldl (λ cg v, AddGlobal cg ("var " +:+ v.1 +:+ " = " +:+ v.2)) cg vo in
    CodeGenerator.packageName cg' = CodeGenerator.packageName cg ∧
    CodeGenerator.imports cg' = CodeGenerator.imports cg ∧
    CodeGenerator.functions cg' = CodeGenerator.functions cg ∧
    CodeGenerator.globals cg' =
      CodeGenerator.globals cg ++ ((λ v, "var " +:+ v.1 +:+ " = " +:+ v.2) <$> vo).
Proof.
  induction vo as [|v vo IH]; intros cg; cbn [foldl fmap list_fmap].
  - by rewrite app_nil_r.
  - destruct (IH (AddGlobal cg ("var " +:+ v.1 +:+ " = " +:+ v.2))) as (-> & -> & -> & ->).
    cbn. by rewrite <- app_assoc.
Qed.

Lemma addFunctions_layout (fo : list (string * parser.Function)) :
  ∀ (cg cg' : CodeGenerator) (g g' : gmap string bool) (err : error),
    addFunctions cg fo g = Some ((cg', err), g') →
    CodeGenerator.packageName cg' = CodeGenerator.packageName cg ∧
    CodeGenerator.imports cg' = CodeGenerator.imports cg ∧
    CodeGenerator.globals cg' = CodeGenerator.globals cg ∧
    (err = None →
     Function.Name <$> CodeGenerator.functions cg' =
       (Function.Name <$> CodeGenerator.functions cg) ++ fo.*1).
Proof.
  induction fo as [|[name fn] fo IH]; intros cg cg' g g' err; cbn [addFunctions].
  - intros [= -> <- <-]. by rewrite app_nil_r.
  - unfold mbind, Gen_bind.
    destruct (generateStatements (parser.Function.Statements fn) g)
      as [[[c [e|]] g1]|]; cbn; [|intros H|done].
    + intros [= <- <- <-]. repeat split. intros [=].
    + apply IH in H as (-> & -> & -> & H). repeat split. intros He.
      rewrite (H He). cbn. rewrite fmap_app. cbn. by rewrite <- app_assoc.
Qed.

End GenerateLayout.

Section GenerateTheorems.
Import strings parser generator.

Lemma prepare_run (vo : list (string * string))
    (fo : list (string * parser.Function)) (ir : IntermediateRepresentation)
    (g0 g' : gmap string bool) (cg : CodeGenerator) (err : error) :
  prepare vo fo ir g0 = Some ((cg, err), g') →
  ∃ (g1 g2 : gmap string bool) (cg1 : CodeGenerator) (e1 : error),
    scanStatements (IntermediateRepresentation.MainStatements ir) g0 = Some (tt, g1) ∧
    addFunctions
      (foldl (λ cg v, AddGlobal cg ("var " +:+ v.1 +:+ " = " +:+ v.2))
         (foldl (λ cg imp, AddImport cg imp.1) (NewCodeGenerator "main") (map_to_list g1))
         vo) fo g1 = Some ((cg1, e1), g2) ∧
    match e1 with
    | Some e => cg = cg1 ∧ err = Some e
    | None =>
        match generateStatements (IntermediateRepresentation.MainStatements ir) g2 with
        | Some ((body, Some e), _) => cg = cg1 ∧ err = Some e
        | Some ((body, None), _) =>
            cg = AddFunction cg1
                   (Function.mk "main" [] EmptyString (Split body LF)
                      ["Main function generated from Bash script"]) ∧ err = None
        | None => False
        end
    end.
Proof.
  unfold prepare, requiredImports, mbind, Gen_bind, mret, Gen_ret.
  destruct (scanStatements _ g0) as [[[] g1]|]; [|done].
  destruct (addFunctions _ fo g1) as [[[cg1 [e|]] g2]|] eqn:Hf; cbn; [| |done].
  - intros [= <- <- <-]. exists g1, g2, cg1, (Some e). auto.
  - destruct (generateStatements _ g2) as [[[body [e|]] g3]|] eqn:Hm; cbn; [| |done].
    + intros [= <- <- <-]. exists g1, g2, cg1, None.
      repeat split; [exact Hf|]. by rewrite Hm.
    + intros [= <- <- <-]. exists g1, g2, cg1, None.
      repeat split; [exact Hf|]. by rewrite Hm.
Qed.

(** X3: the generator that Generate hands to Build imports nothing but
    gexe, os/exec and fmt.  The imports are copied from RequiredImports after
    the scan of the main statements and before any statement is generated, so
    a package recorded during generation (os, strings, io/ioutil, sync) never
    reaches the import block. *)
Theorem Generate_imports (vo : list (string * string))
    (fo : list (string * parser.Function)) (ir : IntermediateRepresentation)
    (g' : gmap string bool) (cg : CodeGenerator) (err : error) (pkg : string) :
  prepare vo fo ir ∅ = Some ((cg, err), g') →
  is_Some (CodeGenerator.imports cg !! pkg) →
  pkg ∈ ["github.com/vladimirvivien/gexe"; "os/exec"; "fmt"].
Proof.
  intros (g1 & g2 & cg1 & e1 & Hscan & Hadd & Hres)%prepare_run Hpkg.
  apply addFunctions_layout in Hadd as (_ & Himp & _ & _).
  assert (CodeGenerator.imports cg = CodeGenerator.imports cg1) as Hcg.
  { destruct e1; [by destruct Hres as [-> _]|].
    destruct (generateStatements _ g2) as [[[body [e|]] g3]|]; [| |done];
      by destruct Hres as [-> _]. }
  rewrite Hcg, Himp in Hpkg.
  destruct (fold_AddGlobal vo
              (foldl (λ cg imp, AddImport cg imp.1) (NewCodeGenerator "main")
                 (map_to_list g1))) as (_ & Hg & _ & _).
  rewrite Hg in Hpkg. apply AddImport_keys in Hpkg as [Hpkg|Hpkg].
  - cbn in Hpkg. rewrite lookup_empty in Hpkg. by destruct Hpkg.
  - apply list_elem_of_fmap in Hpkg as ([k b] & -> & Hkb).
    apply elem_of_map_to_list in Hkb.
    destruct (scanStatements_keys _ _ _ k Hscan) as [Hk|Hk]; [by eexists| |exact Hk].
    rewrite lookup_empty in Hk. by destruct Hk.
Qed.

(** X4: when Generate reaches Build, the package is main, the globals are
    one line var NAME = VALUE for each script variable in the order of the
    visit, and the functions are the script functions in the order of the
    visit followed by main, which comes last. *)
Theorem Generate_layout (vo : list (string * string))
    (fo : list (string * parser.Function)) (ir : IntermediateRepresentation)
    (g0 g' : gmap string bool) (cg : CodeGenerator) :
  prepare vo fo ir g0 = Some ((cg, None), g') →
  CodeGenerator.packageName cg = "main" ∧
  CodeGenerator.globals cg = (λ v, "var " +:+ v.1 +:+ " = " +:+ v.2) <$> vo ∧
  Function.Name <$> CodeGenerator.functions cg = fo.*1 ++ ["main"].
Proof.
  intros (g1 & g2 & cg1 & e1 & Hscan & Hadd & Hres)%prepare_run.
  apply addFunctions_layout in Hadd as (Hp & _ & Hgl & Hfn).
  destruct (fold_AddGlobal vo
              (foldl (λ cg imp, AddImport cg imp.1) (NewCodeGenerator "main")
                 (map_to_list g1))) as (Hp' & _ & Hf' & Hg').
  assert (∀ (l : list (string * bool)) (cg0 : CodeGenerator),
            let cg' := foldl (λ cg imp, AddImport cg imp.1) cg0 l in
            CodeGenerator.packageName cg' = CodeGenerator.packageName cg0
            ∧ CodeGenerator.globals cg' = CodeGenerator.globals cg0
            ∧ CodeGenerator.functions cg' = CodeGenerator.functions cg0) as Himp.
  { induction l as [|x l IH]; intros cg0; [done|]. cbn [foldl].
    destruct (IH (AddImport cg0 x.1)) as (-> & -> & ->). done. }
  destruct (Himp (map_to_list g1) (NewCodeGenerator "main")) as (Hp0 & Hg0 & Hf0).
  destruct e1 as [e|]; [by destruct Hres|].
  destruct (generateStatements _ g2) as [[[body [e|]] g3]|]; [by destruct Hres| |done].
  destruct Hres as [-> _]. cbn.
  rewrite Hp, Hp', Hp0, Hgl, Hg', Hg0, fmap_app, (Hfn eq_refl), Hf', Hf0. done.
Qed.

Lemma scanStatements_never_panics (stmts : list Statement) :
  forallb wellTagged stmts = true → never_panics (scanStatements stmts).
Proof.
  induction stmts as [|[ty value] rest IH]; cbn [forallb scanStatements].
  - intros _ g. by eexists.
  - intros [Hw Hr]%andb_true_iff g. unfold mbind, Gen_bind.
    assert (is_Some (scanStatement (mkStatement ty value) g)) as [[[] g1] ->].
    { unfold scanStatement, require, mbind, Gen_bind, mret, Gen_ret.
      cbn [wellTagged] in Hw.
      repeat (case_match; try discriminate Hw); by eexists. }
    by apply IH.
Qed.

Lemma addFunctions_never_panics (fo : list (string * parser.Function)) :
  Forall (λ f, forallb wellTagged (parser.Function.Statements f.2) = true) fo →
  ∀ (cg : CodeGenerator) (g : gmap string bool),
    ∃ (cg' : CodeGenerator) (g' : gmap string bool),
      addFunctions cg fo g = Some ((cg', None), g').
Proof.
  induction 1 as [|[name fn] fo Hfn _ IH]; intros cg g; cbn [addFunctions].
  - by eexists _, _.
  - unfold mbind, Gen_bind. cbn in Hfn.
    destruct (generateStatements_runs _ g Hfn) as (code & g1 & ->). cbn.
    apply IH.
Qed.

(** X5: on a representation whose main statements and function bodies are
    well tagged, Generate does not panic and has one way to return an error:
    the formatter rejects the text; the result is then the unformatted text
    and the message of the formatter behind the prefix of Format. *)
Theorem Generate_fails_only_in_format (format_Source : string → string + string)
    (vo : list (string * string)) (fo : list (string * parser.Function))
    (ir : IntermediateRepresentation) :
  forallb wellTagged (IntermediateRepresentation.MainStatements ir) = true →
  Forall (λ f, forallb wellTagged (parser.Function.Statements f.2) = true) fo →
  ∃ text : string,
    Generate format_Source vo fo ir =
    Some (match format_Source text with
          | inl src => (src, None)
          | inr err => (text, Some ("failed to format generated code: " +:+ err))
          end).
Proof.
  intros Hmain Hfo. unfold Generate, prepare, requiredImports, mbind, Gen_bind,
    mret, Gen_ret.
  destruct (scanStatements_never_panics _ Hmain ∅) as [[[] g1] ->].
  match goal with
  | |- context [addFunctions ?cg fo g1] =>
      destruct (addFunctions_never_panics fo Hfo cg g1) as (cg1 & g2 & ->)
  end.
  cbn. destruct (generateStatements_runs _ g2 Hmain) as (body & g3 & ->). cbn.
  eexists. unfold Build, Format. reflexivity.
Qed.

Lemma Generate_imports_witness :
  "fmt" ∈ ["github.com/vladimirvivien/gexe"; "os/exec"; "fmt"].
Proof.
  apply (Generate_imports [("NAME", "World")] []
           (IntermediateRepresentation.mk ∅ ∅
              [command (Command.mk "echo" ["hi"] true false)] ∅)
           (<["fmt" := true]> ∅)
           (CodeGenerator.mk "main" (<["fmt" := true]> ∅) ["var NAME = World"]
              [Function.mk "main" [] EmptyString
                 ["fmt.Println(" +:+ DQ +:+ "hi" +:+ DQ +:+ ")"; EmptyString]
                 ["Main function generated from Bash script"]]
              NewCodeBuilder)
           None "fmt").
  - vm_compute. reflexivity.
  - vm_compute. eexists. reflexivity.
Defined.

Lemma Generate_layout_witness :
  let cg :=
    CodeGenerator.mk "main" (<["fmt" := true]> ∅) ["var NAME = World"]
      [Function.mk "main" [] EmptyString
         ["fmt.Println(" +:+ DQ +:+ "hi" +:+ DQ +:+ ")"; EmptyString]
         ["Main function generated from Bash script"]]
      NewCodeBuilder in
  CodeGenerator.packageName cg = "main" ∧
  CodeGenerator.globals cg = ["var NAME = World"] ∧
  Function.Name <$> CodeGenerator.functions cg = ["main"].
Proof.
  apply (Generate_layout [("NAME", "World")] []
           (IntermediateRepresentation.mk ∅ ∅
              [command (Command.mk "echo" ["hi"] true false)] ∅)
           ∅ (<["fmt" := true]> ∅)).
  vm_compute. reflexivity.
Defined.

Lemma Generate_fails_only_in_format_witness :
  ∃ text : string,
    Generate (λ src, inr "1:1: expected 'package'") [("NAME", "World")]
      [("greet", parser.Function.mk "greet"
                   [command (Command.mk "echo" ["hello"] true false)] [] ∅)]
      (IntermediateRepresentation.mk ∅ ∅
         [command (Command.mk "greet" [] false true)] ∅) =
    Some (text, Some "failed to format generated code: 1:1: expected 'package'").
Proof.
  apply (Generate_fails_only_in_format (λ src, inr "1:1: expected 'package'")
           [("NAME", "World")]
           [("greet", parser.Function.mk "greet"
                        [command (Command.mk "echo" ["hello"] true false)] [] ∅)]
           (IntermediateRepresentation.mk ∅ ∅
              [command (Command.mk "greet" [] false true)] ∅)).
  - reflexivity.
  - repeat constructor.
Defined.

End GenerateTheorems.

(** ** Words, variable names and blocks *)

Section Words.
Import strings syntax parser generator.

Lemma identifier_snoc (name : string) (c : ascii) :
  identifier name = true → isValidVarNameChar c = true →
  identifier (name +:+ String c EmptyString) = true.
Proof.
  destruct name as [|d rest]; [discriminate|]. cbn [identifier].
  intros [Hd Hr]%andb_true_iff Hc. apply andb_true_iff. split; [exact Hd|].
  change (String d rest +:+ String c EmptyString)
    with (String d (rest +:+ String c EmptyString)).
  clear Hd. induction rest as [|e rest IH].
  - cbn [String.append list_ascii_of_string forallb]. by rewrite Hc.
  - cbn [list_ascii_of_string forallb] in Hr. apply andb_true_iff in Hr as [He Hr].
    change ((String e rest) +:+ String c EmptyString)
      with (String e (rest +:+ String c EmptyString)).
    cbn [list_ascii_of_string forallb]. rewrite He. by apply IH.
Qed.

Lemma extractFrom_identifiers (s : string) :
  ∀ (inVar : bool) (varName : string),
    (inVar = true →
     identifier varName = true ∨
     (varName = EmptyString ∧ ∃ d s', s = String d s' ∧ isValidVarNameStart d = true)) →
    Forall (λ name, identifier name = true) (extractFrom s inVar varName).
Proof.
  induction s as [|c s IH]; intros inVar varName Hinv; cbn [extractFrom].
  - destruct inVar; [|constructor]. constructor; [|constructor].
    destruct (Hinv eq_refl) as [H|(_ & d & s' & [=] & _)]. exact H.
  - destruct (Ascii.eqb c "$" && _) eqn:Hdollar.
    + apply IH. intros _. right. split; [done|].
      apply andb_true_iff in Hdollar as [_ Hd].
      destruct s as [|d s']; [discriminate Hd|]. by exists d, s'.
    + destruct inVar; [|apply IH; intros [=]].
      assert (isValidVarNameChar c = true → identifier (varName +:+ String c EmptyString) = true) as Hsnoc.
      { intros Hc. destruct (Hinv eq_refl) as [H|(-> & d & s' & [= <- <-] & Hd)].
        - by apply identifier_snoc.
        - change (EmptyString +:+ String c EmptyString) with (String c EmptyString).
          cbn [identifier list_ascii_of_string forallb]. by rewrite Hd. }
      destruct (isValidVarNameChar c) eqn:Hc.
      * apply IH. intros _. left. by apply Hsnoc.
      * constructor; [|apply IH; intros [=]].
        destruct (Hinv eq_refl) as [H|(-> & d & s' & [= <- <-] & Hd)]; [exact H|].
        unfold isValidVarNameChar in Hc. rewrite Hd in Hc. discriminate Hc.
Qed.

Lemma extractFrom_noReference (s : string) (varName : string) :
  noReference s = true → extractFrom s false varName = [].
Proof.
  induction s as [|c s IH]; [reflexivity|]. cbn [noReference extractFrom].
  intros [Hc Hs]%andb_true_iff. apply negb_true_iff in Hc. rewrite Hc.
  by apply IH.
Qed.

(** X6: every name extractVariableNames returns is an identifier: it is
    not empty, starts with a letter or an underscore and goes on with
    letters, digits and underscores.  A dollar sign that no such character
    follows yields no name: on a string in which no dollar sign is followed
    by a letter or an underscore, as in [costs $1 or 5$], the result is
    empty. *)
Theorem extractVariableNames_identifiers (s : string) :
  Forall (λ name, identifier name = true) (extractVariableNames s) ∧
  (noReference s = true → extractVariableNames s = []).
Proof.
  split; [apply extractFrom_identifiers; intros [=]|].
  apply extractFrom_noReference.
Qed.

Lemma extractVariableNames_identifiers_witness :
  extractVariableNames "costs $1 or 5$" = [] ∧
  Forall (λ name, identifier name = true)
    (extractVariableNames "echo $HOME/${USER}_$1") ∧
  extractVariableNames "echo $HOME/${USER}_$1" = ["HOME"].
Proof.
  split; [|split].
  - apply (proj2 (extractVariableNames_identifiers "costs $1 or 5$")). reflexivity.
  - apply (proj1 (extractVariableNames_identifiers "echo $HOME/${USER}_$1")).
  - reflexivity.
Defined.

Lemma last_cons_default {A : Type} (x : A) (l : list A) :
  last (x :: l) = Some (default x (last l)).
Proof. rewrite last_cons. by destruct (last l). Qed.

Lemma rmScan_fold (args : list string) :
  ∀ (isRecursive : bool) (target : string),
    foldl rmScan (isRecursive, target) args =
    (isRecursive || existsb recursiveFlag args,
     default target (last (filter (λ arg, operand arg = true) args))).
Proof.
  induction args as [|arg args IH]; intros r t; cbn [foldl existsb].
  - by rewrite orb_false_r.
  - unfold rmScan at 2. fold (recursiveFlag arg). fold (operand arg). cbn [fst snd].
    destruct (recursiveFlag arg) eqn:Hf.
    + rewrite IH. rewrite orb_true_r. cbn [orb]. f_equal.
      assert (operand arg = false) as Ho.
      { unfold recursiveFlag in Hf. unfold operand.
        apply orb_true_iff in Hf as [Hf|Hf]; [apply orb_true_iff in Hf as [Hf|Hf]|];
          apply String.eqb_eq in Hf; rewrite Hf; reflexivity. }
      by rewrite filter_cons_False by (rewrite Ho; discriminate).
    + cbn [orb]. destruct (operand arg) eqn:Ho.
      * rewrite IH. f_equal. rewrite filter_cons_True by done.
        by rewrite last_cons_default.
      * rewrite IH. f_equal. by rewrite filter_cons_False by (rewrite Ho; discriminate).
Qed.

(** X7: rm with at least one argument removes the last argument that does
    not start with a dash (the empty string when there is none), with
    os.RemoveAll when one of the arguments is -r, -rf or -fr and with
    os.Remove otherwise; the target is a variable when it starts with a
    dollar sign and a string literal otherwise, and os is recorded. *)
Theorem generateCommand_rm (arg : string) (args : list string)
    (builtin useGexe : bool) (g : gmap string bool) :
  generateCommand (Command.mk "rm" (arg :: args) builtin useGexe) g =
  Some (((if existsb recursiveFlag (arg :: args)
          then "err = os.RemoveAll(" else "err = os.Remove(")
         +:+ varOrQuoted
               (default EmptyString
                  (last (filter (λ a, operand a = true) (arg :: args))))
         +:+ ")", None),
        <["os" := true]> g).
Proof.
  unfold generateCommand. cbn [Command.Name Command.Args String.eqb Ascii.eqb Bool.eqb].
  unfold mbind, Gen_bind, require. rewrite rmScan_fold. cbn [orb]. reflexivity.
Qed.

End Words.

Lemma foldl_step_append {A : Type} (step : string → A → string) :
  (∀ (value : string) (x : A), step value x = value +:+ step EmptyString x) →
  ∀ (l : list A) (acc : string),
    foldl step acc l = acc +:+ foldl step EmptyString l.
Proof.
  intros Hstep. induction l as [|x l IH]; intros acc; cbn [foldl].
  - by rewrite append_empty.
  - rewrite (IH (step acc x)), (IH (step EmptyString x)), (Hstep acc x).
    by rewrite append_assoc.
Qed.

Section BuilderBlocks.
Import strings syntax parser generator.

Lemma Join_foldl {A : Type} (f : A → string) (sep : string) (l : list A) :
  ∀ x : string,
    foldl (λ acc y, acc +:+ sep +:+ f y) x l = Join (x :: (f <$> l)) sep.
Proof.
  induction l as [|y l IH]; intros x; [reflexivity|].
  cbn [foldl]. rewrite foldl_step_append
    by (intros v z; change (EmptyString +:+ sep +:+ f z) with (sep +:+ f z);
        reflexivity).
  change (Join (x :: (f <$> y :: l)) sep)
    with (x +:+ sep +:+ Join (f y :: (f <$> l)) sep).
  rewrite <- IH.
  rewrite (foldl_step_append (λ acc z, acc +:+ sep +:+ f z)) with (acc := f y)
    by (intros v z; change (EmptyString +:+ sep +:+ f z) with (sep +:+ f z);
        reflexivity).
  by rewrite !append_assoc.
Qed.

Lemma extractWordValue_parts (parts1 parts2 : list WordPart) :
  extractWordValue (Word.mk (parts1 ++ parts2)) =
    extractWordValue (Word.mk parts1) +:+ extractWordValue (Word.mk parts2).
Proof.
  unfold extractWordValue. cbn [Word.Parts]. rewrite foldl_app.
  apply foldl_step_append.
  intros value []; try reflexivity; by rewrite append_empty.
Qed.

Lemma extractDblQuotedValue_parts (parts1 parts2 : list WordPart) :
  extractDblQuotedValue (parts1 ++ parts2) =
    extractDblQuotedValue parts1 +:+ extractDblQuotedValue parts2.
Proof.
  unfold extractDblQuotedValue. rewrite foldl_app.
  apply foldl_step_append.
  intros value []; try reflexivity; by rewrite append_empty.
Qed.

(** X8: the value of a word is the concatenation of the values of its
    parts, inside double quotes as outside, and double quotes around literal
    parts leave no trace in the value: the quoted word and the bare word have
    the same value. *)
Theorem extractWordValue_app (parts1 parts2 : list WordPart) :
  extractWordValue (Word.mk (parts1 ++ parts2)) =
    extractWordValue (Word.mk parts1) +:+ extractWordValue (Word.mk parts2) ∧
  extractDblQuotedValue (parts1 ++ parts2) =
    extractDblQuotedValue parts1 +:+ extractDblQuotedValue parts2 ∧
  ∀ values : list string,
    extractWordValue (Word.mk [DblQuoted (Lit <$> values)]) =
    extractWordValue (Word.mk (Lit <$> values)).
Proof.
  split; [apply extractWordValue_parts|]. split; [apply extractDblQuotedValue_parts|].
  intros values.
  change (extractWordValue (Word.mk [DblQuoted (Lit <$> values)]))
    with (extractDblQuotedValue (Lit <$> values)).
  induction values as [|v values IH]; [reflexivity|].
  change (Lit <$> v :: values) with ([Lit v] ++ (Lit <$> values)).
  rewrite extractDblQuotedValue_parts, extractWordValue_parts, IH. reflexivity.
Qed.

Lemma appendCall_fold (stmts : list Stmt) :
  ∀ block : list Statement,
    foldl appendCall block stmts = block ++ omap simpleStatement stmts.
Proof.
  induction stmts as [|stmt stmts IH]; intros block; cbn [foldl omap list_omap].
  - by rewrite app_nil_r.
  - rewrite IH. unfold appendCall, simpleStatement, command.
    destruct (Stmt_Cmd stmt) as [[]|]; try reflexivity.
    by rewrite <- app_assoc.
Qed.

Lemma appendCond_fold (stmts : list Stmt) :
  ∀ acc : list Statement * string,
    (foldl appendCond acc stmts).1 = acc.1 ++ omap simpleStatement stmts.
Proof.
  induction stmts as [|stmt stmts IH]; intros acc; cbn [foldl omap list_omap].
  - by rewrite app_nil_r.
  - rewrite IH. unfold appendCond, simpleStatement, command.
    destruct (Stmt_Cmd stmt) as [[]|]; try reflexivity.
    cbn [fst]. by rewrite <- app_assoc.
Qed.

Lemma processSubshell_Statements (stmts : list Stmt) :
  Subshell.Statements (processSubshell stmts) = omap simpleStatement stmts.
Proof. unfold processSubshell. cbn. by rewrite appendCall_fold. Qed.

Lemma processWhileClause_blocks (Cond Do : list Stmt) :
  Loop.Condition (processWhileClause Cond Do) = omap simpleStatement Cond ∧
  Loop.Body (processWhileClause Cond Do) = omap simpleStatement Do.
Proof. unfold processWhileClause. cbn. by rewrite !appendCall_fold. Qed.

Lemma processForClause_Body (x_Loop : option syntax.Loop) (Do : list Stmt) :
  Loop.Body (processForClause x_Loop Do) = omap simpleStatement Do.
Proof. destruct x_Loop; unfold processForClause; cbn; by rewrite appendCall_fold. Qed.

Lemma processIfClause_blocks (Cond Then : list Stmt) (Else : option IfClause) :
  If.Condition (processIfClause (mkIfClause Cond Then Else)) =
    omap simpleStatement Cond ∧
  If.ThenBlock (processIfClause (mkIfClause Cond Then Else)) =
    omap simpleStatement Then.
Proof.
  rewrite processIfClause_unfold. cbn. by rewrite appendCond_fold, appendCall_fold.
Qed.

(** X9: the body of a subshell, the condition and the body of a while loop,
    the body of a for loop, and the condition and the then branch of an if
    clause keep the simple commands of the script, in order, and nothing
    else: a nested if, loop, pipe, subshell or block inside them is dropped
    without an error. *)
Theorem blocks_keep_simple_commands (stmts : list Stmt) :
  Subshell.Statements (processSubshell stmts) = omap simpleStatement stmts ∧
  (∀ Cond : list Stmt,
     Loop.Condition (processWhileClause Cond stmts) = omap simpleStatement Cond ∧
     Loop.Body (processWhileClause Cond stmts) = omap simpleStatement stmts) ∧
  (∀ x_Loop : option syntax.Loop,
     Loop.Body (processForClause x_Loop stmts) = omap simpleStatement stmts) ∧
  (∀ (Cond : list Stmt) (Else : option IfClause),
     If.Condition (processIfClause (mkIfClause Cond stmts Else)) =
       omap simpleStatement Cond ∧
     If.ThenBlock (processIfClause (mkIfClause Cond stmts Else)) =
       omap simpleStatement stmts).
Proof.
  split; [apply processSubshell_Statements|].
  split; [intros Cond; apply processWhileClause_blocks|].
  split; [intros x_Loop; apply processForClause_Body|].
  intros Cond Else. apply processIfClause_blocks.
Qed.

Lemma simpleStatements_wellTagged (stmts : list Stmt) :
  forallb wellTagged (omap simpleStatement stmts) = true.
Proof.
  induction stmts as [|stmt stmts IH]; [reflexivity|]. cbn [omap list_omap].
  unfold simpleStatement at 1. destruct (Stmt_Cmd stmt) as [[]|]; exact IH.
Qed.

Lemma generateStatement_well_tagged (stmt : Statement) (g : gmap string bool) :
  wellTagged stmt = true →
  ∃ (code : string) (g' : gmap string bool),
    generateStatement stmt g = Some ((code, None), g').
Proof.
  intros Hw. destruct (generateStatement_never_panics stmt Hw g) as [[[code err] g'] H].
  exists code, g'. rewrite H. by apply generateStatement_sound in H as [-> _].
Qed.

Lemma wellTagged_If (ifStmt : If) :
  wellTagged (mkStatement StatementIf (VIf ifStmt)) =
  forallb wellTagged (If.Condition ifStmt)
  && forallb wellTagged (If.ThenBlock ifStmt)
  && forallb wellTagged (If.ElseBlock ifStmt).
Proof. reflexivity. Qed.

Lemma wellTagged_Loop (loop : Loop) :
  wellTagged (mkStatement StatementLoop (VLoop loop)) =
  forallb wellTagged (Loop.Condition loop) && forallb wellTagged (Loop.Body loop).
Proof. reflexivity. Qed.

Lemma wellTagged_Subshell (subshell : Subshell) :
  wellTagged (mkStatement StatementSubshell (VSubshell subshell)) =
  forallb wellTagged (Subshell.Statements subshell).
Proof. reflexivity. Qed.

(** X10: whatever the script, the generator neither panics nor returns an
    error on what the builder makes of an if clause, a while loop, a for
    loop, a subshell or a binary command: each of generateIf, generateLoop,
    generateSubshell and generatePipe returns a text with a nil error. *)
Theorem builder_output_generates (g : gmap string bool) :
  (∀ x : IfClause,
     ∃ code g', generateIf (processIfClause x) g = Some ((code, None), g')) ∧
  (∀ Cond Do : list Stmt,
     ∃ code g', generateLoop (processWhileClause Cond Do) g = Some ((code, None), g')) ∧
  (∀ (x_Loop : option syntax.Loop) (Do : list Stmt),
     ∃ code g', generateLoop (processForClause x_Loop Do) g = Some ((code, None), g')) ∧
  (∀ Stmts : list Stmt,
     ∃ code g', generateSubshell (processSubshell Stmts) g = Some ((code, None), g')) ∧
  (∀ x : BinaryCmd,
     ∃ code g', generatePipe (processPipe x) g = Some ((code, None), g')).
Proof.
  repeat split.
  - intros [Cond Then Else].
    apply (generateStatement_well_tagged
             (mkStatement StatementIf (VIf (processIfClause (mkIfClause Cond Then Else))))).
    destruct (processIfClause_blocks Cond Then Else) as [Hc Ht].
    rewrite wellTagged_If, Hc, Ht, !simpleStatements_wellTagged.
    by rewrite processIfClause_unfold.
  - intros Cond Do.
    apply (generateStatement_well_tagged
             (mkStatement StatementLoop (VLoop (processWhileClause Cond Do)))).
    destruct (processWhileClause_blocks Cond Do) as [Hc Hb].
    by rewrite wellTagged_Loop, Hc, Hb, !simpleStatements_wellTagged.
  - intros x_Loop Do.
    apply (generateStatement_well_tagged
             (mkStatement StatementLoop (VLoop (processForClause x_Loop Do)))).
    rewrite wellTagged_Loop, processForClause_Body, simpleStatements_wellTagged.
    by destruct x_Loop.
  - intros Stmts.
    apply (generateStatement_well_tagged
             (mkStatement StatementSubshell (VSubshell (processSubshell Stmts)))).
    by rewrite wellTagged_Subshell, processSubshell_Statements,
      simpleStatements_wellTagged.
  - intros x.
    by apply (generateStatement_well_tagged
                (mkStatement StatementPipe (VPipe (processPipe x)))).
Qed.

End BuilderBlocks.

(** ** Command lines, loops and statement lists *)

Section CommandLines.
Import strings syntax parser generator.

Lemma commandLine_Join (cmd : Command) :
  commandLine cmd = Join (Command.Name cmd :: (spawnArg <$> Command.Args cmd)) " ".
Proof.
  unfold commandLine. apply (Join_foldl spawnArg).
Qed.

Lemma generatePipe_Join (cmd : Command) (cmds : list Command) (g : gmap string bool) :
  generatePipe (Pipe.mk (cmd :: cmds)) g =
  Some (("// Execute piped command: "
         +:+ Join (commandLine <$> (cmd :: cmds)) " | " +:+ LF +:+ TAB
         +:+ "output := exe.Run(" +:+ DQ
         +:+ Join (commandLine <$> (cmd :: cmds)) " | " +:+ DQ +:+ ").Stdout()"
         +:+ LF +:+ TAB +:+ "fmt.Print(output)", None),
        <["github.com/vladimirvivien/gexe" := true]> g).
Proof.
  unfold generatePipe. cbn [Pipe.Commands]. unfold mbind, Gen_bind, require, gexe.
  by rewrite (Join_foldl commandLine " | " cmds (commandLine cmd)).
Qed.

(** X11: a pipe with at least one command is run as one shell line through
    gexe: the command lines of its stages joined by " | ", where the command
    line of a stage is its name and its arguments joined by one space, an
    argument that holds a space and does not start with a double quote
    being wrapped in double quotes.  The IsBuiltin and UseGexe flags of the
    stages are not read, and gexe is recorded. *)
Theorem generatePipe_command_line (cmd : Command) (cmds : list Command)
    (g : gmap string bool) :
  generatePipe (Pipe.mk (cmd :: cmds)) g =
  Some (("// Execute piped command: "
         +:+ Join (commandLine <$> (cmd :: cmds)) " | " +:+ LF +:+ TAB
         +:+ "output := exe.Run(" +:+ DQ
         +:+ Join (commandLine <$> (cmd :: cmds)) " | " +:+ DQ +:+ ").Stdout()"
         +:+ LF +:+ TAB +:+ "fmt.Print(output)", None),
        <["github.com/vladimirvivien/gexe" := true]> g) ∧
  (∀ c : Command,
     commandLine c = Join (Command.Name c :: (spawnArg <$> Command.Args c)) " ").
Proof.
  split; [apply generatePipe_Join|apply commandLine_Join].
Qed.

(** X12: processPipe does not read the operator of the binary command.  Two
    simple commands joined by &&, || or |& are flattened like two commands
    joined by |, and generatePipe emits the pipeline of the two. *)
Theorem processPipe_two_commands (Op : BinCmdOperator) (c1 c2 : CallExpr)
    (g : gmap string bool) :
  generatePipe
    (processPipe (mkBinaryCmd Op (mkStmt (Some (CmdCallExpr c1)))
                    (mkStmt (Some (CmdCallExpr c2))))) g =
  Some (("// Execute piped command: "
         +:+ commandLine (processCallExpr c1) +:+ " | "
         +:+ commandLine (processCallExpr c2) +:+ LF +:+ TAB
         +:+ "output := exe.Run(" +:+ DQ
         +:+ commandLine (processCallExpr c1) +:+ " | "
         +:+ commandLine (processCallExpr c2) +:+ DQ +:+ ").Stdout()"
         +:+ LF +:+ TAB +:+ "fmt.Print(output)", None),
        <["github.com/vladimirvivien/gexe" := true]> g).
Proof.
  unfold processPipe. simp flattenPipe.
  replace (match Op with
           | syntax.Pipe => ([] ++ ([] ++ [processCallExpr c1])) ++ [] ++ [processCallExpr c2]
           | _ => ([] ++ ([] ++ [processCallExpr c1])) ++ [] ++ [processCallExpr c2]
           end) with [processCallExpr c1; processCallExpr c2] by (by destruct Op).
  rewrite (generatePipe_Join (processCallExpr c1) [processCallExpr c2] g).
  cbn [fmap list_fmap Join]. by rewrite !append_assoc.
Qed.

(** X13: a for loop over words is generated as a range over
    strings.Fields of the literal string items with the loop variable i,
    whatever variable and items the script names; its body is the text of
    the simple commands of the loop body, and strings is recorded. *)
Theorem processForClause_placeholders (x_Loop : syntax.Loop) (Do : list Stmt)
    (g : gmap string bool) :
  ∃ (body : string) (g0 : gmap string bool),
    generateStatements (omap simpleStatement Do) g = Some ((body, None), g0) ∧
    generateLoop (processForClause (Some x_Loop) Do) g =
    Some (("items := strings.Fields(" +:+ DQ +:+ "items" +:+ DQ +:+ ")" +:+ LF +:+ TAB
           +:+ "for _, i := range items {" +:+ LF +:+ TAB +:+ TAB
           +:+ body +:+ LF +:+ TAB +:+ "}", None),
          <["strings" := true]> g0).
Proof.
  destruct (generateStatements_runs (omap simpleStatement Do) g)
    as (body & g0 & Hbody); [apply simpleStatements_wellTagged|].
  exists body, g0. split; [exact Hbody|].
  unfold generateLoop, generateLoop_, processForClause, try.
  cbn [Loop.Body Loop.Type_ Loop.IsForEach Loop.Items Loop.RangeVar].
  rewrite appendCall_fold. cbn [app]. unfold mbind, Gen_bind. rewrite Hbody.
  reflexivity.
Qed.

(** X14: a condition whose first statement is a command other than test
    and [ is run through gexe: the name and the arguments joined by one
    space, unquoted, and the exit status tested with Success.  The condition
    statements after the first and the condition type are not read. *)
Theorem generateCondition_spawns (cmd : Command) (rest : list Statement)
    (conditionType : string) (g : gmap string bool) :
  Command.Name cmd ≠ "test" → Command.Name cmd ≠ "[" →
  generateCondition (command cmd :: rest) conditionType g =
  Some (("exe.Run(" +:+ DQ
         +:+ Join (Command.Name cmd :: Command.Args cmd) " "
         +:+ DQ +:+ ").Success()", None),
        <["github.com/vladimirvivien/gexe" := true]> g).
Proof.
  intros Ht Hb. unfold generateCondition, command.
  cbn [Z.eqb StatementCommand].
  apply String.eqb_neq in Ht, Hb. rewrite Ht, Hb. cbn [orb].
  unfold mbind, Gen_bind, require, gexe.
  rewrite (Join_foldl (λ s : string, s) " " (Command.Args cmd) (Command.Name cmd)).
  by rewrite list_fmap_id.
Qed.

Lemma generateCondition_spawns_witness :
  generateCondition
    [command (Command.mk "grep" ["-q"; "main"; "go.mod"] false true);
     command (Command.mk "false" [] false true)] "file" ∅ =
  Some (("exe.Run(" +:+ DQ +:+ "grep -q main go.mod" +:+ DQ +:+ ").Success()", None),
        <["github.com/vladimirvivien/gexe" := true]> ∅).
Proof.
  apply (generateCondition_spawns (Command.mk "grep" ["-q"; "main"; "go.mod"] false true)
           [command (Command.mk "false" [] false true)] "file" ∅).
  - simpl. discriminate.
  - simpl. discriminate.
Defined.

(** X15: generating a concatenation of two statement lists is generating
    the first and then the second from the imports the first left, the text
    of the first in front; a panic in the first list is the result. *)
Theorem generateStatements_app (l1 l2 : list Statement) (g : gmap string bool) :
  generateStatements (l1 ++ l2) g =
  match generateStatements l1 g with
  | Some ((code, None), g1) => prefixed code (generateStatements l2 g1)
  | r => r
  end.
Proof.
  unfold generateStatements. revert g.
  induction l1 as [|stmt l1 IH]; intros g.
  - cbn. by destruct (writeAll generateStatement l2 EmptyString g) as [[[c [e|]] g']|].
  - cbn [app writeAll]. unfold mbind, Gen_bind.
    destruct (generateStatement stmt g) as [[[c [e|]] g1]|]; cbn; [reflexivity| |reflexivity].
    rewrite !(writeAll_prefixed _ _ (EmptyString +:+ c +:+ LF)), IH.
    destruct (writeAll generateStatement l1 EmptyString g1) as [[[c1 [e1|]] g2]|];
      cbn; [reflexivity| |reflexivity].
    destruct (writeAll generateStatement l2 EmptyString g2) as [[[c2 [e2|]] g3]|];
      cbn; [reflexivity| |reflexivity].
    change (EmptyString +:+ c +:+ LF) with (c +:+ LF).
    by rewrite !append_assoc.
Qed.

End CommandLines.

(** ** The [VisitNode] builder and the first generator *)

Section FirstVersion.
Import strings syntax.

Lemma visitAll_supported (fmt_v : WordPart → string) (stmts : list Stmt) :
  Forall supported stmts →
  ∀ ir : visitor.IntermediateRepresentation,
    visitor.visitAll (λ ir' stmt, visitor.VisitNode fmt_v ir' (NodeStmt stmt)) ir stmts =
    (visitor.IntermediateRepresentation.mk
       (visitor.IntermediateRepresentation.Variables ir)
       (visitor.IntermediateRepresentation.Functions ir)
       (visitor.IntermediateRepresentation.MainStatements ir
        ++ omap (λ stmt, (λ cmd, (visitor.processCommand fmt_v cmd).1) <$> Stmt_Cmd stmt)
             stmts),
     None).
Proof.
  induction 1 as [|stmt stmts Hs _ IH]; intros ir; cbn [visitor.visitAll omap list_omap].
  - rewrite app_nil_r. by destruct ir.
  - destruct stmt as [[cmd|]]; simp VisitNode.
    + pose proof (processCommand_supported fmt_v cmd) as Hp.
      destruct (visitor.processCommand fmt_v cmd) as [s [e|]] eqn:Hc.
      * enough (Some e = None) by discriminate. apply Hp. intros k ->. exact Hs.
      * rewrite IH. cbn. rewrite Hc. cbn. by rewrite <- app_assoc.
    + rewrite IH. reflexivity.
Qed.

(** X16: on a file whose statements hold no command of a kind without a
    case, the VisitNode builder succeeds: the variables and the functions
    are empty and the main statements are what processCommand makes of each
    command, in order; a statement without a command adds nothing. *)
Theorem visitor_BuildIR_supported (fmt_v : WordPart → string) (stmts : list Stmt) :
  Forall supported stmts →
  visitor.BuildIR fmt_v (File.mk stmts) =
  (Some (visitor.IntermediateRepresentation.mk ∅ ∅
           (omap (λ stmt, (λ cmd, (visitor.processCommand fmt_v cmd).1) <$> Stmt_Cmd stmt)
              stmts)),
   None).
Proof.
  intros Hs. unfold visitor.BuildIR. simp VisitNode. cbn [File.Stmts].
  by rewrite (visitAll_supported fmt_v stmts Hs).
Qed.

Lemma visitor_BuildIR_supported_witness :
  visitor.BuildIR no_fmt
    (File.mk [call ["cd"; "/tmp"]; mkStmt None; mkStmt (Some (CmdSubshell []))]) =
  (Some (visitor.IntermediateRepresentation.mk ∅ ∅
           [visitor.mkStatement visitor.StatementCommand
              (visitor.VCommand (visitor.Command.mk "cd" ["/tmp"]));
            visitor.mkStatement visitor.StatementSubshell (visitor.VSubshell [])]),
   None).
Proof.
  apply (visitor_BuildIR_supported no_fmt
           [call ["cd"; "/tmp"]; mkStmt None; mkStmt (Some (CmdSubshell []))]).
  repeat constructor.
Defined.

Lemma contains_elem_of (slice : list string) (s : string) :
  generator_v1.contains slice s = true ↔ s ∈ slice.
Proof.
  induction slice as [|item rest IH]; cbn [generator_v1.contains].
  - split; [discriminate|]. intros H. by apply elem_of_nil in H.
  - rewrite elem_of_cons. destruct (String.eqb_spec item s) as [->|Hne].
    + split; auto.
    + rewrite IH. split; [auto|]. intros [->|H]; [done|exact H].
Qed.

(** X17: in the first generator, rm and mkdir act on the last argument,
    which is written into the call as it stands, without quotes; rm uses
    os.RemoveAll exactly when -r or -rf is among the arguments, and both
    record os. *)
Theorem generator_v1_rm (commandTemplate : visitor.Command → string * generator.error)
    (args : list string) (target : string) (g : gmap string bool) :
  last args = Some target →
  generator_v1.generateCommand commandTemplate (visitor.Command.mk "rm" args) g =
  Some (((if bool_decide ("-r" ∈ args ∨ "-rf" ∈ args)
          then "err = os.RemoveAll(" else "err = os.Remove(")
         +:+ target +:+ ")", None),
        <["os" := true]> g) ∧
  generator_v1.generateCommand commandTemplate (visitor.Command.mk "mkdir" args) g =
  Some (("err = os.MkdirAll(" +:+ target +:+ ", 0755)", None), <["os" := true]> g).
Proof.
  intros Hlast. unfold generator_v1.generateCommand.
  cbn [visitor.Command.Name visitor.Command.Args String.eqb Ascii.eqb Bool.eqb].
  rewrite Hlast. split; [|reflexivity].
  unfold mbind, generator.Gen_bind, generator.require.
  destruct (generator_v1.contains args "-r" || generator_v1.contains args "-rf") eqn:Hc.
  - rewrite bool_decide_eq_true_2; [reflexivity|].
    apply orb_true_iff in Hc as [H|H]; apply contains_elem_of in H; auto.
  - rewrite bool_decide_eq_false_2; [reflexivity|].
    apply orb_false_iff in Hc as [H1 H2].
    intros [H|H]; apply contains_elem_of in H; congruence.
Qed.

Lemma generator_v1_rm_witness :
  generator_v1.generateCommand (λ _, (EmptyString, None))
    (visitor.Command.mk "rm" ["-rf"; "build"]) ∅ =
  Some (("err = os.RemoveAll(build)", None), <["os" := true]> ∅) ∧
  generator_v1.generateCommand (λ _, (EmptyString, None))
    (visitor.Command.mk "mkdir" ["-rf"; "build"]) ∅ =
  Some (("err = os.MkdirAll(build, 0755)", None), <["os" := true]> ∅).
Proof.
  apply (generator_v1_rm (λ _, (EmptyString, None)) ["-rf"; "build"] "build" ∅).
  reflexivity.
Defined.

(** X18: what processCommand makes of a command that is not a simple
    command is an empty pipe, an empty subshell, or an echo of a message
    that holds the words not fully implemented; the first generator prints
    that message with fmt.Println, so that the generated program reports
    the construct it does not implement. *)
Theorem placeholders_are_printed (fmt_v : WordPart → string)
    (commandTemplate : visitor.Command → string * generator.error)
    (cmd : syntax.Command) (stmt : visitor.Statement) (g : gmap string bool) :
  (∀ c, cmd ≠ CmdCallExpr c) →
  visitor.processCommand fmt_v cmd = (stmt, None) →
  stmt = visitor.mkStatement visitor.StatementPipe (visitor.VPipe (visitor.Pipe.mk [])) ∨
  stmt = visitor.mkStatement visitor.StatementSubshell (visitor.VSubshell []) ∨
  ∃ msg : string,
    stmt = visitor.dummy msg ∧
    Contains msg "not fully implemented" = true ∧
    generator_v1.generateCommand commandTemplate (visitor.Command.mk "echo" [msg]) g =
    Some (("fmt.Println(" +:+ DQ +:+ msg +:+ DQ +:+ ")", None), <["fmt" := true]> g).
Proof.
  intros Hcall Hp.
  destruct cmd as [c|c|u co d|d|s|s|[Op X Y]|n b|k]; cbn in Hp.
  - by destruct (Hcall c).
  - injection Hp as <-. right. right. by eexists.
  - injection Hp as <-. right. right. by eexists.
  - injection Hp as <-. right. right. by eexists.
  - injection Hp as <-. right. right. by eexists.
  - injection Hp as <-. auto.
  - destruct Op; injection Hp as <-; auto; right; right; by eexists.
  - injection Hp as <-. right. right. by eexists.
  - discriminate Hp.
Qed.

Lemma placeholders_are_printed_witness :
  visitor.dummy "While loop not fully implemented" =
    visitor.mkStatement visitor.StatementPipe (visitor.VPipe (visitor.Pipe.mk [])) ∨
  visitor.dummy "While loop not fully implemented" =
    visitor.mkStatement visitor.StatementSubshell (visitor.VSubshell []) ∨
  ∃ msg : string,
    visitor.dummy "While loop not fully implemented" = visitor.dummy msg ∧
    Contains msg "not fully implemented" = true ∧
    generator_v1.generateCommand (λ _, (EmptyString, None))
      (visitor.Command.mk "echo" [msg]) ∅ =
    Some (("fmt.Println(" +:+ DQ +:+ msg +:+ DQ +:+ ")", None), <["fmt" := true]> ∅).
Proof.
  apply (placeholders_are_printed no_fmt (λ _, (EmptyString, None))
           (CmdWhileClause false [call ["true"]] [call ["date"]])
           (visitor.dummy "While loop not fully implemented") ∅).
  - intros c. discriminate.
  - reflexivity.
Defined.

End FirstVersion.

(** ** [CodeGenerator] and [CodeBuilder] *)

Section Imports.
Import strings generator.

Lemma AddImport_fold_imports (pkgs : list string) :
  ∀ (cg : CodeGenerator) (k : string),
    is_Some (CodeGenerator.imports (foldl AddImport cg pkgs) !! k) ↔
    is_Some (CodeGenerator.imports cg !! k) ∨ k ∈ pkgs.
Proof.
  induction pkgs as [|p pkgs IH]; intros cg k; cbn [foldl].
  - split; [by left|]. intros [H|H]; [exact H|]. by apply elem_of_nil in H.
  - rewrite IH. cbn. rewrite lookup_insert_is_Some, elem_of_cons. split.
    + intros [[->|[_ H]]|H]; auto.
    + intros [H|[->|H]]; auto.
      destruct (decide (p = k)) as [->|Hne]; auto.
Qed.

Lemma AddImport_fold_fields (pkgs : list string) :
  ∀ cg : CodeGenerator,
    CodeGenerator.packageName (foldl AddImport cg pkgs) = CodeGenerator.packageName cg ∧
    CodeGenerator.globals (foldl AddImport cg pkgs) = CodeGenerator.globals cg ∧
    CodeGenerator.functions (foldl AddImport cg pkgs) = CodeGenerator.functions cg ∧
    CodeGenerator.cb (foldl AddImport cg pkgs) = CodeGenerator.cb cg.
Proof.
  induction pkgs as [|p pkgs IH]; intros cg; [done|]. cbn [foldl].
  destruct (IH (AddImport cg p)) as (-> & -> & -> & ->). done.
Qed.

Lemma WriteLine_imports (keys : list string) :
  ∀ buf : string,
    foldl (λ cb imp, WriteLine cb (quote imp)) (CodeBuilder.mk buf 1 TAB) keys =
    CodeBuilder.mk
      (buf +:+ foldr (λ k block, TAB +:+ DQ +:+ k +:+ DQ +:+ LF +:+ block) EmptyString keys)
      1 TAB.
Proof.
  induction keys as [|k keys IH]; intros buf; cbn [foldl foldr].
  - by rewrite append_empty.
  - unfold WriteLine at 2. cbn [CodeBuilder.buf CodeBuilder.indentLevel CodeBuilder.indentStr].
    rewrite IH. f_equal. unfold quote.
    change (indentation (Z.to_nat 1) TAB) with TAB.
    by rewrite !append_assoc.
Qed.

(** X19: on a generator that was only given imports, Build writes the
    package line, an empty line and, when there is an import, the block
    import ( ... ) followed by an empty line; the block has one line, a tab
    and the package in double quotes, for each package given to AddImport,
    each once however often it was added, in ascending byte-wise order.
    Without an import no block is written. *)
Theorem imports_sorted_without_duplicates (packageName : string) (pkgs : list string) :
  ∃ keys : list string,
    Sorted String.le keys ∧ NoDup keys ∧ (∀ k : string, k ∈ keys ↔ k ∈ pkgs) ∧
    BuildSource (foldl AddImport (NewCodeGenerator packageName) pkgs) =
    CodeBuilder.mk
      ("package " +:+ packageName +:+ LF +:+ LF
       +:+ match keys with
           | [] => EmptyString
           | _ :: _ =>
               "import (" +:+ LF
               +:+ foldr (λ k block, TAB +:+ DQ +:+ k +:+ DQ +:+ LF +:+ block)
                     EmptyString keys
               +:+ ")" +:+ LF +:+ LF
           end)
      0 TAB.
Proof.
  set (cg := foldl AddImport (NewCodeGenerator packageName) pkgs).
  exists (sort_Strings (map_to_list (CodeGenerator.imports cg)).*1).
  split; [apply sort_Strings_Sorted|]. split; [|split].
  - unfold sort_Strings. rewrite merge_sort_Permutation. apply NoDup_fst_map_to_list.
  - intros k. unfold sort_Strings. rewrite merge_sort_Permutation, list_elem_of_fmap. split.
    + intros ([k' b] & -> & H%elem_of_map_to_list).
      assert (is_Some (CodeGenerator.imports cg !! k')) as H' by (by exists b).
      apply AddImport_fold_imports in H'. cbn in H'. rewrite lookup_empty in H'.
      destruct H' as [[? [=]]|H']; exact H'.
    + intros Hk.
      destruct (proj2 (AddImport_fold_imports pkgs (NewCodeGenerator packageName) k))
        as [b Hb]; [by right|].
      exists (k, b). split; [done|]. by apply elem_of_map_to_list.
  - destruct (AddImport_fold_fields pkgs (NewCodeGenerator packageName))
      as (Hp & Hg & Hf & Hcb).
    fold cg in Hp, Hg, Hf, Hcb. cbn in Hp, Hg, Hf, Hcb.
    unfold BuildSource. cbv zeta. rewrite Hp, Hg, Hf, Hcb. cbn [foldl].
    assert (List.length (sort_Strings (map_to_list (CodeGenerator.imports cg)).*1)
            = size (CodeGenerator.imports cg)) as Hlen.
    { unfold sort_Strings. rewrite merge_sort_Permutation, length_fmap.
      apply length_map_to_list. }
    destruct (sort_Strings (map_to_list (CodeGenerator.imports cg)).*1)
      as [|k keys] eqn:Hkeys; cbn [List.length] in Hlen; rewrite <- Hlen.
    + cbn [Nat.ltb Nat.leb]. unfold NewCodeBuilder, WriteLine. cbn.
      f_equal. by rewrite !append_assoc, ?append_empty.
    + change (0 <? S (List.length keys))%nat with true. cbv iota.
      unfold NewCodeBuilder.
      change (Indent (WriteLine (WriteLine (WriteLine (CodeBuilder.mk EmptyString 0 TAB)
                ("package " +:+ packageName)) EmptyString) "import ("))
        with (CodeBuilder.mk
                (((("package " +:+ packageName) +:+ LF) +:+ LF) +:+ "import (" +:+ LF)
                1 TAB).
      rewrite WriteLine_imports. unfold Outdent, WriteLine. cbn.
      f_equal. by rewrite !append_assoc.
Qed.

End Imports.

(** ** What [Build] writes into its builder *)

Section BuilderAppends.
Import strings generator.

Lemma WriteLine_prepend (written : string) (cb : CodeBuilder) (line : string) :
  WriteLine (prepend written cb) line = prepend written (WriteLine cb line).
Proof. unfold WriteLine, prepend. cbn. by rewrite append_assoc. Qed.

Lemma Indent_prepend (written : string) (cb : CodeBuilder) :
  Indent (prepend written cb) = prepend written (Indent cb).
Proof. reflexivity. Qed.

Lemma Outdent_prepend (written : string) (cb : CodeBuilder) :
  Outdent (prepend written cb) = prepend written (Outdent cb).
Proof. unfold Outdent, prepend. cbn. by destruct (0 <? _)%Z. Qed.

Lemma foldl_prepend {A : Type} (step : CodeBuilder → A → CodeBuilder)
    (written : string) :
  (∀ cb x, step (prepend written cb) x = prepend written (step cb x)) →
  ∀ (l : list A) (cb : CodeBuilder),
    foldl step (prepend written cb) l = prepend written (foldl step cb l).
Proof.
  intros Hstep. induction l as [|x l IH]; intros cb; [reflexivity|].
  cbn [foldl]. by rewrite Hstep, IH.
Qed.

Lemma writeFunction_prepend (written : string) (cb : CodeBuilder) (fn : Function) :
  writeFunction (prepend written cb) fn = prepend written (writeFunction cb fn).
Proof.
  unfold writeFunction. cbv zeta.
  rewrite (foldl_prepend (λ cb comment, WriteLine cb ("// " +:+ comment)))
    by (intros; apply WriteLine_prepend).
  rewrite WriteLine_prepend, Indent_prepend.
  rewrite (foldl_prepend WriteLine) by (intros; apply WriteLine_prepend).
  by rewrite Outdent_prepend, !WriteLine_prepend.
Qed.

Lemma BuildSource_prepend (cg : CodeGenerator) (written : string) :
  BuildSource (withBuilder cg (prepend written (CodeGenerator.cb cg))) =
  prepend written (BuildSource cg).
Proof.
  unfold BuildSource, withBuilder. cbv zeta.
  cbn [CodeGenerator.cb CodeGenerator.packageName CodeGenerator.imports
       CodeGenerator.globals CodeGenerator.functions].
  rewrite !WriteLine_prepend.
  assert (∀ cb : CodeBuilder,
            foldl writeFunction
              (match CodeGenerator.globals cg with
               | [] => foldl WriteLine (prepend written cb) (CodeGenerator.globals cg)
               | _ :: _ =>
                   WriteLine (foldl WriteLine (prepend written cb)
                                (CodeGenerator.globals cg)) EmptyString
               end) (CodeGenerator.functions cg) =
            prepend written
              (foldl writeFunction
                 (match CodeGenerator.globals cg with
                  | [] => foldl WriteLine cb (CodeGenerator.globals cg)
                  | _ :: _ =>
                      WriteLine (foldl WriteLine cb (CodeGenerator.globals cg))
                        EmptyString
                  end) (CodeGenerator.functions cg))) as Htail.
  { intros cb.
    rewrite (foldl_prepend WriteLine) by (intros; apply WriteLine_prepend).
    destruct (CodeGenerator.globals cg);
      rewrite ?WriteLine_prepend;
      apply foldl_prepend; intros; apply writeFunction_prepend. }
  destruct (0 <? size (CodeGenerator.imports cg))%nat; [|apply Htail].
  rewrite ?WriteLine_prepend, Indent_prepend.
  rewrite (foldl_prepend (λ cb imp, WriteLine cb (quote imp)))
    by (intros; apply WriteLine_prepend).
  rewrite Outdent_prepend, !WriteLine_prepend. apply Htail.
Qed.

Lemma WriteLine_indented (n : Z) (s : string) (cb : CodeBuilder) (line : string) :
  indented n s cb → indented n s (WriteLine cb line).
Proof. done. Qed.

Lemma Indent_indented (n : Z) (s : string) (cb : CodeBuilder) :
  indented n s cb → indented (n + 1) s (Indent cb).
Proof. intros [<- <-]. done. Qed.

Lemma Outdent_indented (n : Z) (s : string) (cb : CodeBuilder) :
  (0 ≤ n)%Z → indented (n + 1) s cb → indented n s (Outdent cb).
Proof.
  intros Hn [Hl Hs]. unfold Outdent, indented.
  destruct (Z.ltb_spec 0 (CodeBuilder.indentLevel cb)); cbn; [split; [lia|done]|lia].
Qed.

Lemma foldl_indented {A : Type} (step : CodeBuilder → A → CodeBuilder)
    (n : Z) (s : string) :
  (∀ cb x, indented n s cb → indented n s (step cb x)) →
  ∀ (l : list A) (cb : CodeBuilder),
    indented n s cb → indented n s (foldl step cb l).
Proof.
  intros Hstep. induction l as [|x l IH]; intros cb Hcb; [exact Hcb|].
  cbn [foldl]. by apply IH, Hstep.
Qed.

Lemma writeFunction_indented (n : Z) (s : string) (cb : CodeBuilder) (fn : Function) :
  (0 ≤ n)%Z → indented n s cb → indented n s (writeFunction cb fn).
Proof.
  intros Hn Hcb. unfold writeFunction. cbv zeta.
  do 2 apply WriteLine_indented. apply Outdent_indented; [exact Hn|].
  apply foldl_indented; [intros; by apply WriteLine_indented|].
  apply Indent_indented, WriteLine_indented.
  apply foldl_indented; [intros; by apply WriteLine_indented|exact Hcb].
Qed.

Lemma BuildSource_indented (n : Z) (s : string) (cg : CodeGenerator) :
  (0 ≤ n)%Z → indented n s (CodeGenerator.cb cg) → indented n s (BuildSource cg).
Proof.
  intros Hn Hcb. unfold BuildSource. cbv zeta.
  apply foldl_indented; [intros; by apply writeFunction_indented|].
  assert (∀ cb, indented n s cb →
            indented n s
              (match CodeGenerator.globals cg with
               | [] => foldl WriteLine cb (CodeGenerator.globals cg)
               | _ :: _ =>
                   WriteLine (foldl WriteLine cb (CodeGenerator.globals cg)) EmptyString
               end)) as Htail.
  { intros cb H. destruct (CodeGenerator.globals cg) as [|x l] eqn:Hg; [exact H|].
    apply WriteLine_indented.
    apply foldl_indented; [intros; by apply WriteLine_indented|exact H]. }
  apply Htail.
  destruct (0 <? size (CodeGenerator.imports cg))%nat;
    [|by do 2 apply WriteLine_indented].
  do 2 apply WriteLine_indented. apply Outdent_indented; [exact Hn|].
  apply foldl_indented; [intros; by apply WriteLine_indented|].
  apply Indent_indented. by do 3 apply WriteLine_indented.
Qed.

(** X20: Build appends to the builder of the generator and never clears
    it.  What it appends does not depend on what the builder holds, and the
    indentation level is the same after as before, so a second call of Build
    on the same generator returns the source twice over. *)
Theorem Build_appends_to_the_builder (cg : CodeGenerator) :
  (0 ≤ CodeBuilder.indentLevel (CodeGenerator.cb cg))%Z →
  ∃ text : string,
    BuildSource cg =
      CodeBuilder.mk (CodeBuilder.buf (CodeGenerator.cb cg) +:+ text)
        (CodeBuilder.indentLevel (CodeGenerator.cb cg))
        (CodeBuilder.indentStr (CodeGenerator.cb cg)) ∧
    CodeBuilder.buf (BuildSource (withBuilder cg (BuildSource cg))) =
      CodeBuilder.buf (CodeGenerator.cb cg) +:+ text +:+ text.
Proof.
  intros Hn.
  set (cb0 := CodeGenerator.cb cg).
  set (empty := CodeBuilder.mk EmptyString (CodeBuilder.indentLevel cb0)
                  (CodeBuilder.indentStr cb0)).
  exists (CodeBuilder.buf (BuildSource (withBuilder cg empty))).
  assert (∀ written : string,
            BuildSource
              (withBuilder cg
                 (CodeBuilder.mk written (CodeBuilder.indentLevel cb0)
                    (CodeBuilder.indentStr cb0))) =
            CodeBuilder.mk
              (written +:+ CodeBuilder.buf (BuildSource (withBuilder cg empty)))
              (CodeBuilder.indentLevel cb0) (CodeBuilder.indentStr cb0)) as Hrun.
  { intros written.
    replace (CodeBuilder.mk written (CodeBuilder.indentLevel cb0)
               (CodeBuilder.indentStr cb0))
      with (prepend written (CodeGenerator.cb (withBuilder cg empty)))
      by (unfold prepend, empty; cbn; by rewrite append_empty).
    change (withBuilder cg (prepend written (CodeGenerator.cb (withBuilder cg empty))))
      with (withBuilder (withBuilder cg empty)
              (prepend written (CodeGenerator.cb (withBuilder cg empty)))).
    rewrite (BuildSource_prepend (withBuilder cg empty) written).
    destruct (BuildSource_indented (CodeBuilder.indentLevel cb0)
                (CodeBuilder.indentStr cb0) (withBuilder cg empty) Hn) as [Hl Hs];
      [done|].
    unfold prepend. by rewrite Hl, Hs. }
  assert (BuildSource cg =
          CodeBuilder.mk
            (CodeBuilder.buf cb0 +:+ CodeBuilder.buf (BuildSource (withBuilder cg empty)))
            (CodeBuilder.indentLevel cb0) (CodeBuilder.indentStr cb0)) as Hfirst.
  { rewrite <- Hrun. unfold withBuilder, cb0. by destruct cg as [? ? ? ? []]. }
  split; [exact Hfirst|].
  rewrite Hfirst, Hrun. cbn. by rewrite append_assoc.
Qed.

Lemma Build_appends_to_the_builder_witness :
  ∃ text : string,
    BuildSource (AddImport (NewCodeGenerator "main") "fmt") =
      CodeBuilder.mk (EmptyString +:+ text) 0 TAB ∧
    CodeBuilder.buf
      (BuildSource
         (withBuilder (AddImport (NewCodeGenerator "main") "fmt")
            (BuildSource (AddImport (NewCodeGenerator "main") "fmt")))) =
      EmptyString +:+ text +:+ text.
Proof.
  apply (Build_appends_to_the_builder (AddImport (NewCodeGenerator "main") "fmt")).
  simpl. lia.
Defined.

End BuilderAppends.

(** ** Assignments and commands without a native rule *)

Section Defaults.
Import strings syntax parser generator.

(** X21: processAssign panics on an assignment whose Name is nil, as the
    parser leaves it for a naked argument of declare or local.  On any other
    assignment it stores the Append flag (NAME+=value) in IsExport and never
    sets IsLocal, so that generateAssignment takes its os.Setenv branch, with
    os recorded, on an appending assignment and emits NAME := value on every
    other one; its var branch is not reached. *)
Theorem processAssign_append_exports (x : Assign) (g : gmap string bool) :
  match Assign.Name x with
  | None => processAssign x = None
  | Some name =>
      let value :=
        match Assign.Value x with
        | Some word => extractWordValue word
        | None => EmptyString
        end in
      processAssign x = Some (Assignment.mk name value false (Assign.Append x)) ∧
      generateAssignment (Assignment.mk name value false (Assign.Append x)) g =
      if Assign.Append x
      then Some (("os.Setenv(" +:+ DQ +:+ name +:+ DQ +:+ ", " +:+ value +:+ ")", None),
                 <["os" := true]> g)
      else Some ((name +:+ " := " +:+ value, None), g)
  end.
Proof.
  unfold processAssign. destruct (Assign.Name x) as [name|]; [|reflexivity].
  cbv zeta. split; [reflexivity|]. unfold generateAssignment.
  cbn [Assignment.IsLocal Assignment.IsExport Assignment.Name Assignment.Value].
  destruct (Assign.Append x); [|reflexivity].
  unfold mbind, Gen_bind, require, ok, quote, mret, Gen_ret. by rewrite !append_assoc.
Qed.

Lemma eqb_not_elem (name : string) (cases : list string) (s : string) :
  name ∉ cases → s ∈ cases → String.eqb name s = false.
Proof. intros Hn Hs. apply String.eqb_neq. by intros ->. Qed.

(** X22: a command of the builder whose name has no case in generateCommand
    falls to the default case.  The builtins among them (printf, return,
    source, export, read) are run as a program of that name through
    exec.Command, with os/exec and fmt recorded; every other command is run
    as a command line through gexe. *)
Theorem generateCommand_without_rule (x : CallExpr) (cmd : Command)
    (g : gmap string bool) :
  cmd = processCallExpr x →
  Command.Name cmd ∉ ["echo"; "cd"; "pwd"; "mkdir"; "rm"; "cp"; "test"; "["; "exit"] →
  generateCommand cmd g =
  if bool_decide (Command.Name cmd ∈ ["printf"; "return"; "source"; "export"; "read"])
  then
    Some (("cmd := exec.Command(" +:+ DQ +:+ Command.Name cmd +:+ DQ
           +:+ match Command.Args cmd with
               | [] => EmptyString
               | _ => ", " +:+ Join (varOrQuoted <$> Command.Args cmd) ", "
               end
           +:+ ")"
           +:+ LF +:+ TAB +:+ "output, err := cmd.CombinedOutput()"
           +:+ LF +:+ TAB +:+ "if err != nil {"
           +:+ LF +:+ TAB +:+ TAB +:+ "return fmt.Errorf(" +:+ DQ
           +:+ "failed to execute command: %v" +:+ DQ +:+ ", err)"
           +:+ LF +:+ TAB +:+ "}"
           +:+ LF +:+ TAB +:+ "fmt.Print(string(output))", None),
          <["fmt" := true]> (<["os/exec" := true]> g))
  else
    Some (("// Execute command: " +:+ commandLine cmd +:+ LF +:+ TAB
           +:+ "output := exe.Run(" +:+ DQ +:+ commandLine cmd +:+ DQ +:+ ").Stdout()"
           +:+ LF +:+ TAB +:+ "fmt.Print(output)", None),
          <["github.com/vladimirvivien/gexe" := true]> g).
Proof.
  intros Hcmd Hn.
  assert (Command.UseGexe cmd =
          negb (bool_decide (Command.Name cmd ∈
                               ["printf"; "return"; "source"; "export"; "read"]))) as Hg.
  { subst cmd. unfold processCallExpr in *.
    destruct (CallExpr.Args x) as [|w ws]; [reflexivity|].
    rewrite oneOf_bool_decide in *.
    destruct (bool_decide (extractWordValue w ∈ builtins)) eqn:Hb;
      cbn [Command.Name Command.UseGexe] in *.
    - apply bool_decide_eq_true in Hb. rewrite bool_decide_eq_true_2; [reflexivity|].
      unfold builtins in Hb. rewrite !elem_of_cons in Hb. rewrite !elem_of_cons in Hn.
      rewrite !elem_of_cons. tauto.
    - apply bool_decide_eq_false in Hb. rewrite bool_decide_eq_false_2; [reflexivity|].
      unfold builtins in Hb. rewrite !elem_of_cons in Hb. rewrite !elem_of_cons. tauto. }
  unfold generateCommand. cbv zeta.
  rewrite !(eqb_not_elem _ _ _ Hn) by set_solver. cbn [orb].
  unfold generateExternal. rewrite Hg.
  destruct (bool_decide _); cbn [negb]; unfold mbind, Gen_bind, require, gexe, quote;
    cbn; [|reflexivity].
  destruct (Command.Args cmd); cbn; by rewrite ?append_assoc.
Qed.

Lemma generateCommand_without_rule_witness :
  generateCommand (Command.mk "ls" ["-la"; "my dir"] false true) ∅ =
  Some (("// Execute command: "
         +:+ commandLine (Command.mk "ls" ["-la"; "my dir"] false true) +:+ LF +:+ TAB
         +:+ "output := exe.Run(" +:+ DQ
         +:+ commandLine (Command.mk "ls" ["-la"; "my dir"] false true)
         +:+ DQ +:+ ").Stdout()"
         +:+ LF +:+ TAB +:+ "fmt.Print(output)", None),
        <["github.com/vladimirvivien/gexe" := true]> ∅).
Proof.
  apply (generateCommand_without_rule (simple ["ls"; "-la"; "my dir"])
           (Command.mk "ls" ["-la"; "my dir"] false true) ∅).
  - reflexivity.
  - simpl. apply (bool_decide_unpack _). vm_compute. exact I.
Defined.

End Defaults.

(** ** Parameter expansions and while loops, from the script to the text *)

Section EndToEnd.
Import strings syntax parser generator.

Lemma length_append (s t : string) :
  String.length (s +:+ t) = (String.length s + String.length t)%nat.
Proof.
  induction s as [|c s IH]; [reflexivity|].
  change (String c s +:+ t) with (String c (s +:+ t)). cbn [String.length].
  by rewrite IH.
Qed.

Lemma substring_append_l (s t : string) :
  substring 0 (String.length s) (s +:+ t) = s.
Proof.
  induction s as [|c s IH]; [by destruct t|].
  change (String c s +:+ t) with (String c (s +:+ t)). cbn [String.length substring].
  by rewrite IH.
Qed.

Lemma substring_append_r (s t : string) (n : nat) :
  substring (String.length s) n (s +:+ t) = substring 0 n t.
Proof.
  induction s as [|c s IH]; [reflexivity|].
  change (String c s +:+ t) with (String c (s +:+ t)). cbn [String.length substring].
  exact IH.
Qed.

Lemma substring_all (s : string) : substring 0 (String.length s) s = s.
Proof.
  induction s as [|c s IH]; [reflexivity|]. cbn [String.length substring]. by rewrite IH.
Qed.

Lemma HasPrefix_append (p s : string) : HasPrefix (p +:+ s) p = true.
Proof. unfold HasPrefix. apply prefix_correct. apply substring_append_l. Qed.

Lemma HasPrefix_head_ne (c d : ascii) (s : string) :
  c ≠ d → HasPrefix (String d s) (String c EmptyString) = false.
Proof.
  intros Hne. destruct (HasPrefix (String d s) (String c EmptyString)) eqn:H; [|done].
  by apply HasPrefix_head in H.
Qed.

Lemma HasPrefix_dollar_DQ (s : string) : HasPrefix ("$" +:+ s) DQ = false.
Proof. apply (HasPrefix_head_ne "034" "$" s). discriminate. Qed.

Lemma HasSuffix_append (s suf : string) : HasSuffix (s +:+ suf) suf = true.
Proof.
  unfold HasSuffix. rewrite length_append. apply andb_true_iff. split.
  - apply Nat.leb_le. lia.
  - replace (String.length s + String.length suf - String.length suf)%nat
      with (String.length s) by lia.
    rewrite substring_append_r, substring_all. apply String.eqb_refl.
Qed.

Lemma TrimPrefix_dollar (s : string) : TrimPrefix ("$" +:+ s) "$" = s.
Proof.
  unfold TrimPrefix. rewrite HasPrefix_append.
  change ("$" +:+ s) with (String "$" s). cbn [String.length substring].
  replace (S (String.length s) - 1)%nat with (String.length s) by lia.
  apply substring_all.
Qed.

Lemma bracedVarName_braces (p : string) :
  bracedVarName ("$" +:+ "{" +:+ p +:+ "}") = Some p.
Proof.
  unfold bracedVarName. rewrite TrimPrefix_dollar.
  rewrite HasPrefix_append.
  rewrite <- (append_assoc "{" p "}") at 1. rewrite HasSuffix_append. cbn [andb].
  unfold slice. change ("{" +:+ p +:+ "}") with (String "{" (p +:+ "}")).
  cbn [String.length]. rewrite length_append. cbn [String.length].
  replace ((1 <=? S (String.length p + 1) - 1)%nat
           && (S (String.length p + 1) - 1 <=? S (String.length p + 1))%nat)
    with true by (symmetry; apply andb_true_iff; split; apply Nat.leb_le; lia).
  replace (S (String.length p + 1) - 1 - 1)%nat with (String.length p) by lia.
  cbn [substring]. by rewrite substring_append_l.
Qed.

Lemma identifier_no_brace (p : string) :
  identifier p = true → HasPrefix p "{" = false.
Proof.
  destruct p as [|c p]; [discriminate|]. cbn [identifier].
  intros [Hc _]%andb_true_iff. apply HasPrefix_head_ne. intros <-.
  vm_compute in Hc. discriminate Hc.
Qed.

(** X23: echo of a parameter expansion prints the Go variable of that name,
    with or without double quotes in the script: the builder renders $NAME
    as the argument $NAME and the quoted form as ${NAME}, and the echo case
    of generateCommand strips the dollar sign and the braces again. *)
Theorem echo_parameter (assigns : list Assign) (p : string) (g : gmap string bool) :
  identifier p = true →
  generateCommand
    (processCallExpr (CallExpr.mk assigns [lit "echo"; Word.mk [ParamExp p]])) g =
  Some (("fmt.Println(" +:+ p +:+ ")", None), <["fmt" := true]> g) ∧
  generateCommand
    (processCallExpr
       (CallExpr.mk assigns [lit "echo"; Word.mk [DblQuoted [ParamExp p]]])) g =
  Some (("fmt.Println(" +:+ p +:+ ")", None), <["fmt" := true]> g).
Proof.
  intros Hp.
  assert (∀ arg : string,
            echoArg arg = Some p →
            generateCommand (Command.mk "echo" [arg] true false) g =
            Some (("fmt.Println(" +:+ p +:+ ")", None), <["fmt" := true]> g)) as Hecho.
  { intros arg Harg. unfold generateCommand.
    cbn [Command.Name Command.Args String.eqb Ascii.eqb Bool.eqb].
    unfold mbind, Gen_bind, require, lift. cbn [mapM]. rewrite Harg. reflexivity. }
  split; apply Hecho; unfold echoArg.
  - change (extractWordValue (Word.mk [ParamExp p])) with ("$" +:+ p).
    rewrite HasPrefix_dollar_DQ. cbn [andb].
    rewrite HasPrefix_append. unfold bracedVarName. rewrite TrimPrefix_dollar.
    by rewrite (identifier_no_brace p Hp).
  - change (extractWordValue (Word.mk [DblQuoted [ParamExp p]]))
      with ("$" +:+ "{" +:+ p +:+ "}").
    rewrite HasPrefix_dollar_DQ. cbn [andb].
    rewrite HasPrefix_append. apply bracedVarName_braces.
Qed.

Lemma echo_parameter_witness :
  generateCommand
    (processCallExpr (CallExpr.mk [] [lit "echo"; Word.mk [ParamExp "NAME"]])) ∅ =
  Some (("fmt.Println(" +:+ "NAME" +:+ ")", None), <["fmt" := true]> ∅) ∧
  generateCommand
    (processCallExpr
       (CallExpr.mk [] [lit "echo"; Word.mk [DblQuoted [ParamExp "NAME"]]])) ∅ =
  Some (("fmt.Println(" +:+ "NAME" +:+ ")", None), <["fmt" := true]> ∅).
Proof.
  apply (echo_parameter [] "NAME" ∅). reflexivity.
Defined.

(** X24: a while loop is generated as a Go for loop whose head is the
    condition generateCondition gives for the simple commands of the loop
    condition, and whose body is the text of the simple commands of the loop
    body; the body is generated first, the condition from the imports the
    body left.  processWhileClause reads the condition and the body only, so
    an until loop yields the same text. *)
Theorem processWhileClause_loop (Cond Do : list Stmt) (g : gmap string bool) :
  ∃ (body condition : string) (g1 g2 : gmap string bool),
    generateStatements (omap simpleStatement Do) g = Some ((body, None), g1) ∧
    generateCondition (omap simpleStatement Cond) "command" g1 =
      Some ((condition, None), g2) ∧
    generateLoop (processWhileClause Cond Do) g =
    Some (("for " +:+ condition +:+ " {" +:+ LF +:+ TAB +:+ TAB
           +:+ body +:+ LF +:+ TAB +:+ "}", None), g2).
Proof.
  destruct (generateStatements_runs (omap simpleStatement Do) g)
    as (body & g1 & Hbody); [apply simpleStatements_wellTagged|].
  destruct (generateCondition_never_panics (omap simpleStatement Cond) "command"
              (simpleStatements_wellTagged Cond) g1) as [[[condition err] g2] Hcond].
  pose proof (generateCondition_sound _ _ _ _ _ _ Hcond) as [-> _].
  exists body, condition, g1, g2. split; [exact Hbody|]. split; [exact Hcond|].
  unfold generateLoop, generateLoop_, processWhileClause, try.
  cbn [Loop.Body Loop.Type_ Loop.Condition].
  rewrite !appendCall_fold. cbn [app]. unfold mbind, Gen_bind. rewrite Hbody.
  cbn. rewrite Hcond. cbn. unfold loopBlock. by rewrite !append_assoc.
Qed.

End EndToEnd.
